(** * IEEE-formater: the authoring form of [frontend/src/App.jsx]

    A shallow embedding of the React component [App] and of its helper
    [toRoman], with the properties of the section numbering, of the author
    roster and of the generation request proved over it.

    Conventions of the embedding.
    - JavaScript numbers that the component uses as counters and indices are
      integers; they are modelled as [Z].
    - JavaScript strings are modelled as [string]; [+:+] is concatenation.
    - The objects held in the [authors] and [sections] arrays are mutated in
      place by the change handlers, so they live in a store and the arrays
      hold their addresses.
    - Every handler runs against the committed state: the [formData] captured
      by the handler's closure and the [prev] handed to the updater of
      [setFormData] are the same value. *)

From Stdlib Require Import ZArith Lia String Ascii List Sorted.
From stdpp Require Import base tactics option list gmap strings.

Local Open Scope Z_scope.

(** ** Section numbering: [toRoman] *)

Module Roman.

(** One element of the [romanNumerals] table. *)
Record entry := Entry { value : Z; numeral : string }.

Definition romanNumerals : list entry :=
  [ Entry 1000 "M"; Entry 900 "CM"; Entry 500 "D"; Entry 400 "CD";
    Entry 100 "C"; Entry 90 "XC"; Entry 50 "L"; Entry 40 "XL";
    Entry 10 "X"; Entry 9 "IX"; Entry 5 "V"; Entry 4 "IV"; Entry 1 "I" ].

(** [while (num >= value) { result += numeral; num -= value; }]

    The fuel bounds the number of times the body runs; the test itself costs
    nothing, so a loop whose test fails at once ends with any fuel.  [None]
    is "out of fuel". *)
Fixpoint while_loop (fuel : nat) (value : Z) (numeral : string)
    (num : Z) (result : string) : option (Z * string) :=
  if num >=? value then
    match fuel with
    | O => None
    | S fuel' =>
        while_loop fuel' value numeral (num - value) (result +:+ numeral)
    end
  else Some (num, result).

(** [for (const { value, numeral } of romanNumerals) { while ... }] followed
    by [return result]. *)
Fixpoint for_of (fuel : nat) (table : list entry) (num : Z) (result : string)
    : option string :=
  match table with
  | [] => Some result
  | e :: rest =>
      match while_loop fuel (value e) (numeral e) num result with
      | Some (num', result') => for_of fuel rest num' result'
      | None => None
      end
  end.

Definition toRoman_fuel (fuel : nat) (num : Z) : option string :=
  for_of fuel romanNumerals num "".

(** [toRoman]: every table value is at least 1, so no loop body runs more
    than [num] times ([toRoman_fuel_enough] below). *)
Definition toRoman (num : Z) : string :=
  default "" (toRoman_fuel (Z.to_nat num) num).

(** *** The specification's encoder *)

(** The largest table value not exceeding [n], with its symbol. *)
Definition pick_larger (n : Z) (best : option entry) (e : entry) : option entry :=
  if value e <=? n then
    match best with
    | Some b => if value b <? value e then Some e else Some b
    | None => Some e
    end
  else best.

Definition largest_not_exceeding (table : list entry) (n : Z) : option entry :=
  fold_left (pick_larger n) table None.

(** "Repeatedly subtract the largest table value not exceeding [n], appending
    its symbol, until [n] reaches 0." *)
Inductive greedy (table : list entry) : Z -> string -> Prop :=
| greedy_zero : greedy table 0 ""
| greedy_subtract n e s :
    n <> 0 ->
    largest_not_exceeding table n = Some e ->
    greedy table (n - value e) s ->
    greedy table n (numeral e +:+ s).

Definition encode_spec : Z -> string -> Prop := greedy romanNumerals.

(** The canonical numeral, digit by digit. *)
Definition digit_numeral (one five ten : string) (d : Z) : string :=
  match d with
  | 1 => one
  | 2 => one +:+ one
  | 3 => one +:+ one +:+ one
  | 4 => one +:+ five
  | 5 => five
  | 6 => five +:+ one
  | 7 => five +:+ one +:+ one
  | 8 => five +:+ one +:+ one +:+ one
  | 9 => one +:+ ten
  | _ => ""
  end.

Definition canonical (n : Z) : string :=
  digit_numeral "M" "" "" (n / 1000)
  +:+ digit_numeral "C" "D" "M" (n / 100 mod 10)
  +:+ digit_numeral "X" "L" "C" (n / 10 mod 10)
  +:+ digit_numeral "I" "V" "X" (n mod 10).

(** The comparison of the encoder with the digit-by-digit numeral. *)
Definition agrees_with_canonical (n : Z) : bool :=
  String.eqb (toRoman n) (canonical n).

(** The label of the section at [index], as the [sections.map] callback
    computes it: [index === 0 ? 'Introduction' : `Section ${toRoman(index + 1)}`]. *)
Definition sectionLabel (index : Z) : string :=
  if index =? 0 then "Introduction" else "Section " +:+ toRoman (index + 1).

(** The labels of a whole section list; the callback ignores the section
    itself for the label. *)
Definition sectionLabels {A} (sections : list A) : list string :=
  imap (fun index _ => sectionLabel (Z.of_nat index)) sections.

End Roman.

(** ** The component state and its handlers *)

Module App.

(** *** Data *)

(** An author object: the seven string properties of the object literal. *)
Record Author := mkAuthor {
  firstName : string;
  lastName : string;
  membership : string;
  department : string;
  organization : string;
  cityCountry : string;
  email : string
}.

(** The property names that the author inputs pass to [handleAuthorChange]. *)
Inductive authorField :=
| FirstName | LastName | Membership | Department | Organization
| CityCountry | Email.

(** [author[field] = value] *)
Definition setAuthorProp (field : authorField) (v : string) (a : Author) : Author :=
  match field with
  | FirstName => mkAuthor v (lastName a) (membership a) (department a) (organization a) (cityCountry a) (email a)
  | LastName => mkAuthor (firstName a) v (membership a) (department a) (organization a) (cityCountry a) (email a)
  | Membership => mkAuthor (firstName a) (lastName a) v (department a) (organization a) (cityCountry a) (email a)
  | Department => mkAuthor (firstName a) (lastName a) (membership a) v (organization a) (cityCountry a) (email a)
  | Organization => mkAuthor (firstName a) (lastName a) (membership a) (department a) v (cityCountry a) (email a)
  | CityCountry => mkAuthor (firstName a) (lastName a) (membership a) (department a) (organization a) v (email a)
  | Email => mkAuthor (firstName a) (lastName a) (membership a) (department a) (organization a) (cityCountry a) v
  end.


(** The object literal of [addAuthor] and of the initial state. *)
Definition emptyAuthor : Author := mkAuthor "" "" "" "" "" "" "".

(** JSON values, with the properties of an object in insertion order. *)
#[local] Set Warnings "-register-all".
Inductive json :=
| JString (s : string)
| JBool (b : bool)
| JArray (items : list json)
| JObject (props : list (string * json)).
#[local] Set Warnings "register-all".

(** A section object.  The first default section has no [subsections]
    property, the second has [subsections: []]; the component never reads or
    writes the property, so its elements are kept as plain values. *)
Record SectionObj := mkSection {
  s_title : string;
  s_content : string;
  s_subsections : option (list json)
}.

(** [section.content = value] *)
Definition setSectionContent (v : string) (s : SectionObj) : SectionObj :=
  mkSection (s_title s) v (s_subsections s).

(** The [formData] object.  In the component state the two arrays hold
    references ([FormData loc loc]); read through the store they hold the
    objects themselves ([FormData Author SectionObj]). *)
Record FormData (A S : Type) := mkFormData {
  title : string;
  paperNotice : string;
  funding : string;
  dropCap : bool;
  authors : list A;
  abstract : string;
  keywords : string;
  sections : list S;
  references : string
}.
Arguments mkFormData {A S}.
Arguments title {A S}.
Arguments paperNotice {A S}.
Arguments funding {A S}.
Arguments dropCap {A S}.
Arguments authors {A S}.
Arguments abstract {A S}.
Arguments keywords {A S}.
Arguments sections {A S}.
Arguments references {A S}.

(** [{ ...prev, authors: a }] and [{ ...prev, sections: s }] *)
Definition with_authors {A A' S} (prev : FormData A S) (a : list A') : FormData A' S :=
  mkFormData (title prev) (paperNotice prev) (funding prev) (dropCap prev) a
    (abstract prev) (keywords prev) (sections prev) (references prev).

Definition with_sections {A S S'} (prev : FormData A S) (s : list S') : FormData A S' :=
  mkFormData (title prev) (paperNotice prev) (funding prev) (dropCap prev)
    (authors prev) (abstract prev) (keywords prev) s (references prev).

(** The calls of [handleInputChange] in the component: six text inputs pass
    [e.target.value], the checkbox passes [e.target.checked] for ['dropCap']. *)
Inductive textField := Title | PaperNotice | Funding | Abstract | Keywords | References.

Inductive inputChange :=
| ChangeText (field : textField) (value : string)
| ChangeDropCap (checked : bool).

(** [{ ...prev, [field]: value }] *)
Definition with_field {A S} (prev : FormData A S) (c : inputChange) : FormData A S :=
  match c with
  | ChangeText Title v =>
      mkFormData v (paperNotice prev) (funding prev) (dropCap prev) (authors prev)
        (abstract prev) (keywords prev) (sections prev) (references prev)
  | ChangeText PaperNotice v =>
      mkFormData (title prev) v (funding prev) (dropCap prev) (authors prev)
        (abstract prev) (keywords prev) (sections prev) (references prev)
  | ChangeText Funding v =>
      mkFormData (title prev) (paperNotice prev) v (dropCap prev) (authors prev)
        (abstract prev) (keywords prev) (sections prev) (references prev)
  | ChangeText Abstract v =>
      mkFormData (title prev) (paperNotice prev) (funding prev) (dropCap prev)
        (authors prev) v (keywords prev) (sections prev) (references prev)
  | ChangeText Keywords v =>
      mkFormData (title prev) (paperNotice prev) (funding prev) (dropCap prev)
        (authors prev) (abstract prev) v (sections prev) (references prev)
  | ChangeText References v =>
      mkFormData (title prev) (paperNotice prev) (funding prev) (dropCap prev)
        (authors prev) (abstract prev) (keywords prev) (sections prev) v
  | ChangeDropCap b =>
      mkFormData (title prev) (paperNotice prev) (funding prev) b (authors prev)
        (abstract prev) (keywords prev) (sections prev) (references prev)
  end.

(** Addresses of objects in the store. *)
Abbreviation loc := nat (only parsing).

(** The state of the component: the two [useState] cells and the store of
    the author and section objects the arrays refer to. *)
Record AppState := mkAppState {
  formData : FormData loc loc;
  pdfUrl : option string;
  authorObjs : gmap nat Author;
  sectionObjs : gmap nat SectionObj
}.

(** The [useState] initial values. *)
Definition initialState : AppState :=
  {| formData :=
       mkFormData "" "" "" true [0%nat] "" "" [0%nat; 1%nat] "";
     pdfUrl := None;
     authorObjs := {[ 0%nat := emptyAuthor ]};
     sectionObjs :=
       {[ 0%nat := mkSection "Introduction" "" None;
          1%nat := mkSection "Section II" "" (Some []) ]} |}.

(** The document as it reads through the store. *)
Definition document (st : AppState) : FormData Author SectionObj :=
  with_sections
    (with_authors (formData st)
       (omap (fun l => authorObjs st !! l) (authors (formData st))))
    (omap (fun l => sectionObjs st !! l) (sections (formData st))).


(** *** JSON.stringify(formData)

    The tree that [JSON.stringify] walks: own properties in insertion order,
    arrays element by element.  Spreading [prev] and overriding a property,
    and assigning to an existing property, both keep the order of the
    object literal. *)
Definition author_json (a : Author) : json :=
  JObject [ ("firstName", JString (firstName a));
            ("lastName", JString (lastName a));
            ("membership", JString (membership a));
            ("department", JString (department a));
            ("organization", JString (organization a));
            ("cityCountry", JString (cityCountry a));
            ("email", JString (email a)) ].

Definition section_json (s : SectionObj) : json :=
  JObject ([ ("title", JString (s_title s));
             ("content", JString (s_content s)) ]
           ++ match s_subsections s with
              | Some subs => [ ("subsections", JArray subs) ]
              | None => []
              end).

Definition formData_json (d : FormData Author SectionObj) : json :=
  JObject [ ("title", JString (title d));
            ("paperNotice", JString (paperNotice d));
            ("funding", JString (funding d));
            ("dropCap", JBool (dropCap d));
            ("authors", JArray (author_json <$> authors d));
            ("abstract", JString (abstract d));
            ("keywords", JString (keywords d));
            ("sections", JArray (section_json <$> sections d));
            ("references", JString (references d)) ].

(** The property names of an object, in order. *)
Definition keys (j : json) : list string :=
  match j with
  | JObject props => fst <$> props
  | _ => []
  end.

(** *** The outside world *)

(** A thrown JavaScript value. *)
Inductive exn :=
| TypeError (message : string)
| OtherError (name message : string).

(** The response that [fetch] resolves with; reading its body may fail. *)
Record Response := mkResponse {
  status : Z;
  blob_result : exn + string
}.

(** [response.ok]: the status is in the range 200-299. *)
Definition ok (r : Response) : bool := (200 <=? status r) && (status r <=? 299).

(** What the environment answers during one run of [handleSubmit]: the
    settlement of the [fetch] promise, and the identifier the browser picks
    for the next object URL. *)
Record world := mkWorld {
  fetch_result : exn + Response;
  next_uuid : string
}.

(** The second argument of [fetch].  The body is kept as the tree that
    [JSON.stringify] prints, not as its text. *)
Record RequestInit := mkRequestInit {
  method : string;
  headers : list (string * string);
  body : json
}.

Inductive logArg := LogString (s : string) | LogError (e : exn).

(** What a handler does to the outside world. *)
Inductive effect :=
| PreventDefault
| FetchCall (url : string) (init : RequestInit)
| CreateObjectURL (blob : string) (url : string)
| ConsoleError (args : list logArg)
| LinkClick (href download : string).

(** *** Handlers as computations

    A handler transforms the component state, may throw, and leaves a trace
    of effects. *)
Inductive outcome (A : Type) :=
| Returned (a : A)
| Thrown (e : exn).
Arguments Returned {A}.
Arguments Thrown {A}.

Definition M (A : Type) : Type := AppState -> outcome A * AppState * list effect.

#[export] Instance M_ret : MRet M := fun _ a st => (Returned a, st, []).

#[export] Instance M_bind : MBind M := fun _ _ f m st =>
  match m st with
  | (Returned a, st', tr) =>
      match f a st' with
      | (r, st'', tr') => (r, st'', tr ++ tr')
      end
  | (Thrown e, st', tr) => (Thrown e, st', tr)
  end.

Definition throw {A} (e : exn) : M A := fun st => (Thrown e, st, []).

(** [try { m } catch (error) { handler error }] *)
Definition try_catch {A} (m : M A) (handler : exn -> M A) : M A := fun st =>
  match m st with
  | (Returned a, st', tr) => (Returned a, st', tr)
  | (Thrown e, st', tr) =>
      match handler e st' with
      | (r, st'', tr') => (r, st'', tr ++ tr')
      end
  end.

Definition emit (e : effect) : M unit := fun st => (Returned tt, st, [e]).

Definition get_formData : M (FormData loc loc) := fun st => (Returned (formData st), st, []).

Definition get_pdfUrl : M (option string) := fun st => (Returned (pdfUrl st), st, []).

Definition get_document : M (FormData Author SectionObj) :=
  fun st => (Returned (document st), st, []).

(** [setFormData(prev => f prev)] *)
Definition setFormData (f : FormData loc loc -> FormData loc loc) : M unit := fun st =>
  (Returned tt,
   mkAppState (f (formData st)) (pdfUrl st) (authorObjs st) (sectionObjs st), []).

Definition setPdfUrl (url : string) : M unit := fun st =>
  (Returned tt,
   mkAppState (formData st) (Some url) (authorObjs st) (sectionObjs st), []).

(** Evaluation of an author object literal: a new object in the store. *)
Definition new_author (a : Author) : M loc := fun st =>
  let l := fresh (dom (authorObjs st)) in
  (Returned l,
   mkAppState (formData st) (pdfUrl st) (<[l := a]> (authorObjs st)) (sectionObjs st), []).

(** [array[index]]: [undefined] ([None]) outside the array. *)
Definition array_get {A} (array : list A) (index : Z) : option A :=
  if 0 <=? index then array !! Z.to_nat index else None.

(** [target[field] = value] for the result of an array read; assigning to a
    property of [undefined] throws a [TypeError]. *)
Definition assign_author_prop (target : option loc) (field : authorField)
    (value : string) : M unit :=
  match target with
  | Some l => fun st =>
      (Returned tt,
       mkAppState (formData st) (pdfUrl st)
         (alter (setAuthorProp field value) l (authorObjs st)) (sectionObjs st), [])
  | None => throw (TypeError "Cannot set properties of undefined")
  end.

Definition assign_section_content (target : option loc) (value : string) : M unit :=
  match target with
  | Some l => fun st =>
      (Returned tt,
       mkAppState (formData st) (pdfUrl st) (authorObjs st)
         (alter (setSectionContent value) l (sectionObjs st)), [])
  | None => throw (TypeError "Cannot set properties of undefined")
  end.

(** [array.filter((x, i) => p x i)] *)
Fixpoint filter_from {A} (p : A -> nat -> bool) (i : nat) (array : list A) : list A :=
  match array with
  | [] => []
  | x :: rest =>
      if p x i then x :: filter_from p (S i) rest else filter_from p (S i) rest
  end.

Definition array_filter {A} (p : A -> nat -> bool) (array : list A) : list A :=
  filter_from p 0 array.

(** *** The handlers of the component *)

Definition handleInputChange (change : inputChange) : M unit :=
  setFormData (fun prev => with_field prev change).

Definition handleAuthorChange (index : Z) (field : authorField) (value : string)
    : M unit :=
  formData ← get_formData;
  let updatedAuthors := authors formData in          (* [...formData.authors] *)
  assign_author_prop (array_get updatedAuthors index) field value;;
  setFormData (fun prev => with_authors prev updatedAuthors).

Definition addAuthor : M unit :=
  formData ← get_formData;
  if Z.of_nat (length (authors formData)) <? 6 then
    author ← new_author emptyAuthor;
    setFormData (fun prev => with_authors prev (authors prev ++ [author]))
  else mret tt.

Definition removeAuthor (index : Z) : M unit :=
  formData ← get_formData;
  if Z.of_nat (length (authors formData)) >? 1 then
    let updatedAuthors :=
      array_filter (fun _ i => negb (Z.of_nat i =? index)) (authors formData) in
    setFormData (fun prev => with_authors prev updatedAuthors)
  else mret tt.

(** The [onChange] of the textarea of the section at [index]. *)
Definition sectionOnChange (index : Z) (value : string) : M unit :=
  formData ← get_formData;
  let updatedSections := sections formData in        (* [...formData.sections] *)
  assign_section_content (array_get updatedSections index) value;;
  setFormData (fun prev => with_sections prev updatedSections).

(** [await fetch(url, init)] *)
Definition fetch (w : world) (url : string) (init : RequestInit) : M Response :=
  emit (FetchCall url init);;
  match fetch_result w with
  | inr response => mret response
  | inl e => throw e
  end.

(** [await response.blob()] *)
Definition response_blob (r : Response) : M string :=
  match blob_result r with
  | inr blob => mret blob
  | inl e => throw e
  end.

(** [window.URL.createObjectURL(blob)]: a new URL of the [blob:] scheme. *)
Definition createObjectURL (w : world) (blob : string) : M string :=
  let url := "blob:" +:+ next_uuid w in
  emit (CreateObjectURL blob url);;
  mret url.

Definition console_error (args : list logArg) : M unit := emit (ConsoleError args).

Definition handleSubmit (w : world) : M unit :=
  emit PreventDefault;;
  try_catch
    (formData ← get_document;
     response ← fetch w "/api/generate-pdf"
                  (mkRequestInit "POST" [("Content-Type", "application/json")]
                     (formData_json formData));
     if ok response then
       blob ← response_blob response;
       url ← createObjectURL w blob;
       setPdfUrl url
     else console_error [LogString "Error generating PDF"])
    (fun error => console_error [LogString "Error:"; LogError error]).

(** Truthiness of the [pdfUrl] cell, which holds [null] or a string. *)
Definition truthy (v : option string) : bool :=
  match v with
  | Some s => negb (String.eqb s "")
  | None => false
  end.

Definition downloadPdf : M unit :=
  pdfUrl ← get_pdfUrl;
  if truthy pdfUrl then
    emit (LinkClick (default "" pdfUrl) "ieee_conference_paper.pdf")
  else mret tt.

(** *** The form

    The inputs that carry the [required] attribute: title, abstract,
    keywords and, for every author, each field but membership.  A required
    control is in error exactly when its value is the empty string. *)
Definition filled (value : string) : bool := negb (String.eqb value "").

Definition author_required_filled (a : Author) : bool :=
  filled (firstName a) && filled (lastName a) && filled (department a)
  && filled (organization a) && filled (cityCountry a) && filled (email a).

Definition required_filled (d : FormData Author SectionObj) : bool :=
  filled (title d) && forallb author_required_filled (authors d)
  && filled (abstract d) && filled (keywords d).

(** A click on the submit button of [<form onSubmit={handleSubmit}>]: the
    browser fires the submit event, and with it [handleSubmit], only when no
    required control of the form is in error; otherwise nothing is called. *)
Definition submitForm (w : world) : M unit :=
  formData ← get_document;
  if required_filled formData then handleSubmit w else mret tt.

(** *** Sessions *)

(** One invocation of a handler, with what the environment answers to it. *)
Inductive call :=
| HandleInputChange (change : inputChange)
| HandleAuthorChange (index : Z) (field : authorField) (value : string)
| AddAuthor
| RemoveAuthor (index : Z)
| SectionOnChange (index : Z) (value : string)
| HandleSubmit (w : world)
| DownloadPdf.

Definition handler (c : call) : M unit :=
  match c with
  | HandleInputChange change => handleInputChange change
  | HandleAuthorChange index field value => handleAuthorChange index field value
  | AddAuthor => addAuthor
  | RemoveAuthor index => removeAuthor index
  | SectionOnChange index value => sectionOnChange index value
  | HandleSubmit w => handleSubmit w
  | DownloadPdf => downloadPdf
  end.

Definition result_of {A} (r : outcome A * AppState * list effect) : outcome A := r.1.1.
Definition state_of {A} (r : outcome A * AppState * list effect) : AppState := r.1.2.
Definition trace_of {A} (r : outcome A * AppState * list effect) : list effect := r.2.

(** The state after a sequence of calls; a handler that throws leaves the
    state it had reached. *)
Definition run (calls : list call) (st : AppState) : AppState :=
  fold_left (fun st c => state_of (handler c st)) calls st.

(** The effects of a sequence of calls, in order. *)
Fixpoint run_trace (calls : list call) (st : AppState) : list effect :=
  match calls with
  | [] => []
  | c :: rest => trace_of (handler c st) ++ run_trace rest (state_of (handler c st))
  end.

Definition reachable (st : AppState) : Prop :=
  exists calls, st = run calls initialState.

(** The number of authors on the roster. *)
Definition authorCount (st : AppState) : nat := length (authors (formData st)).

(** *** Shape of the store *)

(** Every reference held by the two arrays points to an object. *)
Definition closed (st : AppState) : Prop :=
  Forall (fun l => is_Some (authorObjs st !! l)) (authors (formData st))
  /\ Forall (fun l => is_Some (sectionObjs st !! l)) (sections (formData st)).

(** No object sits at two positions of an array. *)
Definition unshared (st : AppState) : Prop :=
  NoDup (authors (formData st)) /\ NoDup (sections (formData st)).

(** The shape every state of a session has: no dangling reference, no
    shared object, and between 1 and 6 authors. *)
Definition well_formed (st : AppState) : Prop :=
  closed st /\ unshared st /\ (1 <= authorCount st <= 6)%nat.

(** *** Reading a trace *)

(** The requests a trace sends. *)
Definition sent_requests (tr : list effect) : list (string * RequestInit) :=
  omap (fun e => match e with FetchCall url init => Some (url, init) | _ => None end) tr.

(** The files a trace delivers to the user: link target and file name. *)
Definition deliveries (tr : list effect) : list (string * string) :=
  omap (fun e => match e with LinkClick href name => Some (href, name) | _ => None end) tr.

(** A call of [handleSubmit] that the service answers with a 2xx response
    whose body can be read. *)
Definition successful_submit (c : call) : bool :=
  match c with
  | HandleSubmit w =>
      match fetch_result w with
      | inr r => ok r && match blob_result r with inr _ => true | inl _ => false end
      | inl _ => false
      end
  | _ => false
  end.

(** Three answers of the environment, used as examples: the service returns
    a PDF, the service answers 500, and the request never gets through. *)
Definition world_accepting : world :=
  mkWorld (inr (mkResponse 200 (inr "%PDF-1.5"))) "0b7c".

Definition world_rejecting : world :=
  mkWorld (inr (mkResponse 500 (inr "Internal Server Error"))) "0b7c".

Definition world_unreachable : world :=
  mkWorld (inl (TypeError "Failed to fetch")) "0b7c".

(** The initial document after a single space is typed into every
    required input. *)
Definition blankState : AppState :=
  run [ HandleInputChange (ChangeText Title " ");
        HandleAuthorChange 0 FirstName " ";
        HandleAuthorChange 0 LastName " ";
        HandleAuthorChange 0 Department " ";
        HandleAuthorChange 0 Organization " ";
        HandleAuthorChange 0 CityCountry " ";
        HandleAuthorChange 0 Email " ";
        HandleInputChange (ChangeText Abstract " ");
        HandleInputChange (ChangeText Keywords " ") ] initialState.

(** The field names of the specification's data model. *)
Definition spec_field_names : list string :=
  [ "title"; "paperNotice"; "funding"; "dropCapEnabled"; "authors";
    "abstract"; "keywords"; "sections"; "references" ].

#[export] Instance authorField_eq_dec : EqDecision authorField.
Proof. solve_decision. Defined.

End App.

(** ** What the rendered form offers *)

Module View.
Import App.

(** [n] copies of [s], one after the other. *)
Fixpoint repeat_string (n : nat) (s : string) : string :=
  match n with
  | O => ""
  | S n' => s +:+ repeat_string n' s
  end.

(** [0 <= index < array.length]: the indices [array.map] calls back with. *)
Definition in_range {A} (array : list A) (index : Z) : bool :=
  (0 <=? index) && (index <? Z.of_nat (length array)).

(** The handler invocations that the tree rendered for [st] can make.
    - every top-level input calls [handleInputChange];
    - [formData.authors.map] renders the inputs of each author, and inside
      it [formData.authors.length > 1 && ...] renders the remove button;
    - [formData.authors.length < 6 && ...] renders the add button;
    - [formData.sections.map] renders a textarea for each section;
    - the form fires its submit event when no required input is empty;
    - [pdfUrl && ...] renders the download button. *)
Definition offered (st : AppState) (c : call) : bool :=
  match c with
  | HandleInputChange _ => true
  | HandleAuthorChange index _ _ => in_range (authors (formData st)) index
  | AddAuthor => Z.of_nat (length (authors (formData st))) <? 6
  | RemoveAuthor index =>
      (Z.of_nat (length (authors (formData st))) >? 1)
      && in_range (authors (formData st)) index
  | SectionOnChange index _ => in_range (sections (formData st)) index
  | HandleSubmit _ => required_filled (document st)
  | DownloadPdf => truthy (pdfUrl st)
  end.

(** A session in which every call is one the rendered form offers at the
    time it is made. *)
Fixpoint ui_driven (calls : list call) (st : AppState) : bool :=
  match calls with
  | [] => true
  | c :: rest => offered st c && ui_driven rest (state_of (handler c st))
  end.

(** The results of the calls of a session, in order. *)
Fixpoint run_results (calls : list call) (st : AppState) : list (outcome unit) :=
  match calls with
  | [] => []
  | c :: rest => result_of (handler c st) :: run_results rest (state_of (handler c st))
  end.

(** The handle a session ends with: the object URL of its last successful
    submit, or the one it started with. *)
Fixpoint last_handle (calls : list call) (current : option string) : option string :=
  match calls with
  | [] => current
  | c :: rest =>
      last_handle rest
        (match c with
         | HandleSubmit w =>
             if successful_submit c then Some ("blob:" +:+ next_uuid w) else current
         | _ => current
         end)
  end.

(** [formData[field]] for the text inputs. *)
Definition text_field {A S} (field : textField) (d : FormData A S) : string :=
  match field with
  | Title => title d
  | PaperNotice => paperNotice d
  | Funding => funding d
  | Abstract => abstract d
  | Keywords => keywords d
  | References => references d
  end.

#[export] Instance textField_eq_dec : EqDecision textField.
Proof. solve_decision. Defined.

End View.

(** * Properties *)

(** ** Strings *)

Lemma string_app_nil_r (s : string) : s +:+ "" = s.
Proof.
  induction s as [|c s IH]; [reflexivity|].
  change (String c (s +:+ "") = String c s). by rewrite IH.
Qed.

Lemma string_app_assoc (s1 s2 s3 : string) :
  (s1 +:+ s2) +:+ s3 = s1 +:+ (s2 +:+ s3).
Proof.
  induction s1 as [|c s1 IH]; [reflexivity|].
  change (String c ((s1 +:+ s2) +:+ s3) = String c (s1 +:+ (s2 +:+ s3))).
  by rewrite IH.
Qed.

(** ** The encoder *)

Module RomanFacts.
Import Roman.

(** The loop test fails at once: nothing is appended, whatever the fuel. *)
Lemma while_loop_skip fuel v sym num result :
  num < v -> while_loop fuel v sym num result = Some (num, result).
Proof.
  intros Hlt. destruct fuel; simpl;
    (destruct (Z.geb_spec num v) as [Hge|_]; [lia | done]).
Qed.

Lemma while_loop_enter fuel v sym num result :
  v <= num ->
  while_loop (S fuel) v sym num result
  = while_loop fuel v sym (num - v) (result +:+ sym).
Proof.
  intros Hle. simpl. destruct (Z.geb_spec num v) as [_|Hlt]; [done | lia].
Qed.

(** *** Choosing the largest value not exceeding [n] *)

Lemma pick_larger_all_exceed n (l : list entry) acc :
  Forall (fun e => n < value e) l ->
  fold_left (pick_larger n) l acc = acc.
Proof.
  intros Hall. revert acc. induction Hall as [|e l He _ IH]; intros acc; simpl.
  - done.
  - rewrite IH. unfold pick_larger.
    destruct (Z.leb_spec (value e) n); [lia | done].
Qed.

Lemma pick_larger_all_smaller n (l : list entry) b :
  Forall (fun e => value e < value b) l ->
  fold_left (pick_larger n) l (Some b) = Some b.
Proof.
  intros Hall. induction Hall as [|e l He _ IH]; simpl; [done|].
  unfold pick_larger at 2.
  destruct (Z.leb_spec (value e) n); [|done].
  destruct (Z.ltb_spec (value b) (value e)); [lia | done].
Qed.

Lemma largest_not_exceeding_split pre e rest n :
  Forall (fun e' => n < value e') pre ->
  value e <= n ->
  Forall (fun e' => value e' < value e) rest ->
  largest_not_exceeding (pre ++ e :: rest) n = Some e.
Proof.
  intros Hpre He Hrest. unfold largest_not_exceeding.
  rewrite fold_left_app. rewrite (pick_larger_all_exceed n pre) by exact Hpre. simpl.
  unfold pick_larger at 2. destruct (Z.leb_spec (value e) n); [|lia].
  by apply pick_larger_all_smaller.
Qed.

(** What [largest_not_exceeding] returns is in the table, does not exceed
    [n], and no table value that fits is larger; it returns nothing only
    when every table value exceeds [n]. *)
Lemma largest_not_exceeding_spec table n :
  match largest_not_exceeding table n with
  | Some e =>
      e ∈ table /\ value e <= n /\
      Forall (fun e' => value e' <= n -> value e' <= value e) table
  | None => Forall (fun e' => n < value e') table
  end.
Proof.
  unfold largest_not_exceeding.
  induction table as [|x l IH] using rev_ind; simpl; [by constructor|].
  rewrite fold_left_app. simpl.
  destruct (fold_left (pick_larger n) l None) as [b|]; unfold pick_larger.
  - destruct IH as (Hin & Hle & Hmax).
    destruct (Z.leb_spec (value x) n) as [Hx|Hx].
    + destruct (Z.ltb_spec (value b) (value x)) as [Hb|Hb].
      * split_and!; [set_solver | done |].
        apply Forall_app; split.
        -- eapply Forall_impl; [exact Hmax|]. simpl. intros e' He' Hn.
           specialize (He' Hn). lia.
        -- by repeat constructor.
      * split_and!; [set_solver | done |].
        apply Forall_app; split; [done|]. repeat constructor. lia.
    + split_and!; [set_solver | done |].
      apply Forall_app; split; [done|]. repeat constructor. lia.
  - destruct (Z.leb_spec (value x) n) as [Hx|Hx].
    + split_and!; [set_solver | done |].
      apply Forall_app; split.
      * eapply Forall_impl; [exact IH|]. simpl. intros; lia.
      * by repeat constructor.
    + apply Forall_app; split; [done|]. by repeat constructor.
Qed.

(** *** The loops against the greedy specification

    The loops are followed along a split [pre ++ e :: rest] of the table:
    [pre] holds the entries the [for] loop is done with, all larger than
    what is left of [num]. *)
Section Greedy.
Variable T : list entry.

Lemma while_greedy pre e rest :
  T = pre ++ e :: rest ->
  Forall (fun e' => value e' < value e) rest ->
  0 < value e ->
  forall fuel num result,
    0 <= num ->
    Forall (fun e' => num < value e') pre ->
    (Z.to_nat num <= fuel)%nat ->
    exists num' p,
      while_loop fuel (value e) (numeral e) num result
      = Some (num', result +:+ p)
      /\ 0 <= num' <= num /\ num' < value e
      /\ forall s, greedy T num' s -> greedy T num (p +:+ s).
Proof.
  intros HT Hrest Hpos fuel.
  induction fuel as [|fuel IH]; intros num result Hnum Hpre Hfuel.
  - assert (num = 0) as -> by lia.
    exists 0, "". rewrite while_loop_skip by lia.
    rewrite string_app_nil_r. split_and!; auto; lia.
  - destruct (Z.lt_ge_cases num (value e)) as [Hlt|Hge].
    + exists num, "". rewrite while_loop_skip by lia.
      rewrite string_app_nil_r. split_and!; auto; lia.
    + rewrite while_loop_enter by lia.
      destruct (IH (num - value e) (result +:+ numeral e))
        as (num' & p & Hrun & Hbounds & Hstop & Hspec); [lia| |lia|].
      { eapply Forall_impl; [exact Hpre|]. simpl. intros; lia. }
      exists num', (numeral e +:+ p). rewrite Hrun, string_app_assoc.
      split_and!; [done|lia|lia|lia|].
      intros s Hs. rewrite string_app_assoc.
      apply greedy_subtract; [lia| |by apply Hspec].
      rewrite HT. by apply largest_not_exceeding_split.
Qed.

Lemma for_of_greedy t : forall pre fuel num result,
  T = pre ++ t ->
  StronglySorted (fun a b => value b < value a) t ->
  Forall (fun e => 0 < value e) t ->
  0 <= num ->
  Forall (fun e => num < value e) pre ->
  (Z.to_nat num <= fuel)%nat ->
  exists num' s,
    for_of fuel t num result = Some (result +:+ s)
    /\ 0 <= num' /\ Forall (fun e => num' < value e) T
    /\ forall s', greedy T num' s' -> greedy T num (s +:+ s').
Proof.
  induction t as [|e rest IH];
    intros pre fuel num result HT Hsorted Hpos Hnum Hpre Hfuel.
  - exists num, "". simpl. rewrite string_app_nil_r.
    rewrite app_nil_r in HT. subst pre. auto.
  - apply StronglySorted_inv in Hsorted as [Hsorted Hrest].
    apply Forall_cons in Hpos as [Hpos_e Hpos].
    destruct (while_greedy pre e rest HT Hrest Hpos_e fuel num result)
      as (num1 & p & Hrun & Hbounds & Hstop & Hspec); [done..|].
    destruct (IH (pre ++ [e]) fuel num1 (result +:+ p))
      as (num' & s & Hrun' & Hnum' & Hall & Hspec'); [|done|done|lia| |lia|].
    { by rewrite <- app_assoc. }
    { apply Forall_app; split.
      - eapply Forall_impl; [exact Hpre|]. simpl. intros; lia.
      - by repeat constructor. }
    exists num', (p +:+ s). simpl. rewrite Hrun, Hrun', string_app_assoc.
    split_and!; [done..|].
    intros s' Hs'. rewrite string_app_assoc. auto.
Qed.

(** The specification relates a number to at most one string. *)
Lemma greedy_functional n s1 s2 :
  greedy T n s1 -> greedy T n s2 -> s1 = s2.
Proof.
  intros H1. revert s2.
  induction H1 as [|n e s Hn He _ IH]; intros s2 H2; inversion H2; subst.
  - done.
  - done.
  - done.
  - assert (e0 = e) as -> by congruence. f_equal. auto.
Qed.
End Greedy.

Lemma romanNumerals_descending :
  StronglySorted (fun a b => value b < value a) romanNumerals.
Proof. unfold romanNumerals. repeat constructor; simpl; lia. Qed.

Lemma romanNumerals_positive : Forall (fun e => 0 < value e) romanNumerals.
Proof. unfold romanNumerals. repeat constructor; simpl; lia. Qed.

(** With fuel for [num] iterations the loops end, and with the string of
    the specification. *)
Lemma toRoman_fuel_greedy num fuel :
  0 <= num -> (Z.to_nat num <= fuel)%nat ->
  exists s, toRoman_fuel fuel num = Some s /\ encode_spec num s.
Proof.
  intros Hnum Hfuel.
  destruct (for_of_greedy romanNumerals romanNumerals [] fuel num "")
    as (num' & s & Hrun & Hnum' & Hall & Hspec);
    [done | apply romanNumerals_descending | apply romanNumerals_positive
    | done | constructor | done |].
  exists s. split; [exact Hrun|].
  assert (num' = 0) as ->.
  { assert (Hone : Entry 1 "I" ∈ romanNumerals) by (unfold romanNumerals; set_solver).
    rewrite Forall_forall in Hall. apply Hall in Hone. simpl in Hone. lia. }
  rewrite <- (string_app_nil_r s). apply Hspec. constructor.
Qed.

Lemma toRoman_fuel_enough num fuel :
  0 <= num -> (Z.to_nat num <= fuel)%nat ->
  toRoman_fuel fuel num = Some (toRoman num).
Proof.
  intros Hnum Hfuel.
  destruct (toRoman_fuel_greedy num fuel Hnum Hfuel) as (s & Hrun & Hs).
  destruct (toRoman_fuel_greedy num (Z.to_nat num) Hnum (le_n _))
    as (s0 & Hrun0 & Hs0).
  unfold toRoman. rewrite Hrun, Hrun0. simpl. f_equal.
  eapply greedy_functional; eauto.
Qed.

Lemma toRoman_greedy num : 0 <= num -> encode_spec num (toRoman num).
Proof.
  intros Hnum.
  destruct (toRoman_fuel_greedy num (Z.to_nat num) Hnum (le_n _))
    as (s & Hrun & Hs).
  unfold toRoman. by rewrite Hrun.
Qed.

(** Below 1 no loop body runs, whatever the fuel. *)
Lemma toRoman_fuel_nonpositive num fuel :
  num <= 0 -> toRoman_fuel fuel num = Some "".
Proof.
  intros Hnum. unfold toRoman_fuel, romanNumerals. simpl.
  by rewrite !while_loop_skip by lia.
Qed.

(** The encoder against the digit-by-digit numeral, by running both on
    every number of the range. *)
Lemma toRoman_canonical_checked :
  forallb agrees_with_canonical (seqZ 1 3999) = true.
Proof. vm_compute. reflexivity. Qed.

Lemma toRoman_canonical n : 1 <= n <= 3999 -> toRoman n = canonical n.
Proof.
  intros Hn. apply String.eqb_eq.
  pose proof toRoman_canonical_checked as Hall.
  rewrite forallb_forall in Hall. apply Hall.
  apply list_elem_of_In, elem_of_seqZ. lia.
Qed.

End RomanFacts.

(** ** The handlers *)

Module AppFacts.
Import App.

(** Unfolds a handler down to the state transformer it denotes. *)
Ltac run_handler :=
  unfold handler, handleInputChange, handleAuthorChange, addAuthor, removeAuthor,
    sectionOnChange, handleSubmit, downloadPdf, fetch, response_blob,
    createObjectURL, console_error, assign_author_prop, assign_section_content,
    new_author, try_catch, throw, emit, setFormData, setPdfUrl, get_formData,
    get_pdfUrl, get_document, mbind, M_bind, mret, M_ret,
    result_of, state_of, trace_of in *;
  simpl in *.

(** *** Arrays *)

Lemma array_get_valid {A} (array : list A) index :
  0 <= index < Z.of_nat (length array) ->
  exists x, array_get array index = Some x /\ array !! Z.to_nat index = Some x.
Proof.
  intros Hi. unfold array_get.
  destruct (Z.leb_spec 0 index); [|lia].
  destruct (lookup_lt_is_Some_2 array (Z.to_nat index)) as [x Hx]; [lia|].
  eauto.
Qed.

Lemma array_get_invalid {A} (array : list A) index :
  ~ (0 <= index < Z.of_nat (length array)) -> array_get array index = None.
Proof.
  intros Hi. unfold array_get.
  destruct (Z.leb_spec 0 index); [|done].
  apply lookup_ge_None. lia.
Qed.

(** Filtering on [i !== index] deletes the element at [index], if any. *)
Lemma filter_from_ne {A} (array : list A) : forall (j : nat) (index : Z),
  filter_from (fun _ i => negb (Z.of_nat i =? index)) j array
  = if decide (Z.of_nat j <= index < Z.of_nat (j + length array))
    then delete (Z.to_nat index - j)%nat array
    else array.
Proof.
  induction array as [|x rest IH]; intros j index; simpl.
  - by case_decide.
  - rewrite IH. destruct (Z.eqb_spec (Z.of_nat j) index) as [Heq|Hne]; simpl.
    + subst index. rewrite decide_False by lia. rewrite decide_True by lia.
      replace (Z.to_nat (Z.of_nat j) - j)%nat with 0%nat by lia. done.
    + case_decide as H1; case_decide as H2; try lia; try done.
      replace (Z.to_nat index - j)%nat with (S (Z.to_nat index - S j)) by lia.
      done.
Qed.

Lemma array_filter_ne_valid {A} (array : list A) index :
  0 <= index < Z.of_nat (length array) ->
  array_filter (fun _ i => negb (Z.of_nat i =? index)) array
  = delete (Z.to_nat index) array.
Proof.
  intros Hi. unfold array_filter. rewrite filter_from_ne.
  rewrite decide_True by (simpl; lia). by rewrite Nat.sub_0_r.
Qed.

Lemma array_filter_ne_invalid {A} (array : list A) index :
  ~ (0 <= index < Z.of_nat (length array)) ->
  array_filter (fun _ i => negb (Z.of_nat i =? index)) array = array.
Proof.
  intros Hi. unfold array_filter. rewrite filter_from_ne.
  by rewrite decide_False by (simpl; lia).
Qed.

Lemma array_filter_ne_length {A} (array : list A) index :
  (length array - 1
   <= length (array_filter (fun _ i => negb (Z.of_nat i =? index)%Z) array)
   <= length array)%nat.
Proof.
  destruct (decide (0 <= index < Z.of_nat (length array))) as [Hi|Hi].
  - rewrite array_filter_ne_valid by done. rewrite length_delete; [lia|].
    apply lookup_lt_is_Some_2. lia.
  - rewrite array_filter_ne_invalid by done. lia.
Qed.

Lemma array_filter_ne_sublist {A} (array : list A) index :
  sublist (array_filter (fun _ i => negb (Z.of_nat i =? index)) array) array.
Proof.
  destruct (decide (0 <= index < Z.of_nat (length array))) as [Hi|Hi].
  - rewrite array_filter_ne_valid by done. apply sublist_delete.
  - by rewrite array_filter_ne_invalid by done.
Qed.

(** *** Reading arrays through the store *)


Lemma omap_length_closed {A B} (f : A -> option B) (l : list A) :
  Forall (fun x => is_Some (f x)) l -> length (omap f l) = length l.
Proof.
  induction 1 as [|x l [y Hy] _ IH]; csimpl; [done|]. rewrite Hy. csimpl.
  by rewrite IH.
Qed.

Lemma omap_ext_Forall {A B} (f g : A -> option B) (l : list A) :
  Forall (fun x => f x = g x) l -> omap f l = omap g l.
Proof.
  induction 1 as [|x l Hx _ IH]; csimpl; [done|]. by rewrite Hx, IH.
Qed.

Lemma omap_delete_closed {A B} (f : A -> option B) (l : list A) k :
  Forall (fun x => is_Some (f x)) l ->
  omap f (delete k l) = delete k (omap f l).
Proof.
  intros Hall. revert k.
  induction Hall as [|x l [y Hy] _ IH]; intros k; csimpl; [done|].
  destruct k; csimpl; rewrite Hy; [done|]. csimpl. by rewrite IH.
Qed.



(** *** What each handler does to the state *)

Lemma handleInputChange_run change st :
  handleInputChange change st
  = (Returned tt,
     mkAppState (with_field (formData st) change) (pdfUrl st)
       (authorObjs st) (sectionObjs st), []).
Proof. reflexivity. Qed.

Lemma addAuthor_full st :
  (6 <= authorCount st)%nat -> addAuthor st = (Returned tt, st, []).
Proof.
  intros Hfull. unfold authorCount in Hfull. run_handler.
  destruct (Z.ltb_spec (Z.of_nat (length (authors (formData st)))) 6); [lia|done].
Qed.

Lemma addAuthor_room st :
  (authorCount st < 6)%nat ->
  addAuthor st
  = (Returned tt,
     mkAppState
       (with_authors (formData st)
          (authors (formData st) ++ [fresh (dom (authorObjs st))]))
       (pdfUrl st)
       (<[fresh (dom (authorObjs st)) := emptyAuthor]> (authorObjs st))
       (sectionObjs st), []).
Proof.
  intros Hroom. unfold authorCount in Hroom. run_handler.
  destruct (Z.ltb_spec (Z.of_nat (length (authors (formData st)))) 6); [done|lia].
Qed.

Lemma removeAuthor_last st index :
  (authorCount st <= 1)%nat -> removeAuthor index st = (Returned tt, st, []).
Proof.
  intros Hone. unfold authorCount in Hone. run_handler.
  destruct (Z.gtb_spec (Z.of_nat (length (authors (formData st)))) 1); [lia|done].
Qed.

Lemma removeAuthor_several st index :
  (1 < authorCount st)%nat ->
  removeAuthor index st
  = (Returned tt,
     mkAppState
       (with_authors (formData st)
          (array_filter (fun _ i => negb (Z.of_nat i =? index))
             (authors (formData st))))
       (pdfUrl st) (authorObjs st) (sectionObjs st), []).
Proof.
  intros Hmore. unfold authorCount in Hmore. run_handler.
  destruct (Z.gtb_spec (Z.of_nat (length (authors (formData st)))) 1); [done|lia].
Qed.

Lemma handleAuthorChange_invalid st index field value :
  ~ (0 <= index < Z.of_nat (authorCount st)) ->
  handleAuthorChange index field value st
  = (Thrown (TypeError "Cannot set properties of undefined"), st, []).
Proof.
  intros Hi. unfold authorCount in Hi. run_handler.
  by rewrite array_get_invalid.
Qed.

Lemma handleAuthorChange_valid st index field value l :
  authors (formData st) !! Z.to_nat index = Some l -> 0 <= index ->
  handleAuthorChange index field value st
  = (Returned tt,
     mkAppState (with_authors (formData st) (authors (formData st))) (pdfUrl st)
       (alter (setAuthorProp field value) l (authorObjs st)) (sectionObjs st), []).
Proof.
  intros Hl Hi. run_handler. unfold array_get.
  destruct (Z.leb_spec 0 index); [|lia]. by rewrite Hl.
Qed.

Lemma sectionOnChange_invalid st index value :
  ~ (0 <= index < Z.of_nat (length (sections (formData st)))) ->
  sectionOnChange index value st
  = (Thrown (TypeError "Cannot set properties of undefined"), st, []).
Proof.
  intros Hi. run_handler. by rewrite array_get_invalid.
Qed.

Lemma sectionOnChange_valid st index value l :
  sections (formData st) !! Z.to_nat index = Some l -> 0 <= index ->
  sectionOnChange index value st
  = (Returned tt,
     mkAppState (with_sections (formData st) (sections (formData st))) (pdfUrl st)
       (authorObjs st) (alter (setSectionContent value) l (sectionObjs st)), []).
Proof.
  intros Hl Hi. run_handler. unfold array_get.
  destruct (Z.leb_spec 0 index); [|lia]. by rewrite Hl.
Qed.

Lemma with_authors_same {S} (d : FormData nat S) : with_authors d (authors d) = d.
Proof. by destruct d. Qed.

Lemma with_sections_same {A} (d : FormData A nat) : with_sections d (sections d) = d.
Proof. by destruct d. Qed.

(** The request that [handleSubmit] sends for the state [st]. *)
Lemma handleSubmit_run w st :
  handleSubmit w st
  = let request :=
      FetchCall "/api/generate-pdf"
        (mkRequestInit "POST" [("Content-Type", "application/json")]
           (formData_json (document st))) in
    match fetch_result w with
    | inl e =>
        (Returned tt, st,
         [PreventDefault; request; ConsoleError [LogString "Error:"; LogError e]])
    | inr r =>
        if ok r then
          match blob_result r with
          | inr blob =>
              (Returned tt,
               mkAppState (formData st) (Some ("blob:" +:+ next_uuid w))
                 (authorObjs st) (sectionObjs st),
               [PreventDefault; request;
                CreateObjectURL blob ("blob:" +:+ next_uuid w)])
          | inl e =>
              (Returned tt, st,
               [PreventDefault; request;
                ConsoleError [LogString "Error:"; LogError e]])
          end
        else
          (Returned tt, st,
           [PreventDefault; request; ConsoleError [LogString "Error generating PDF"]])
    end.
Proof.
  run_handler. destruct (fetch_result w) as [e|r]; simpl; [done|].
  destruct (ok r); simpl; [|done].
  destruct (blob_result r); simpl; done.
Qed.

Lemma downloadPdf_state st : state_of (downloadPdf st) = st.
Proof. run_handler. by destruct (truthy (pdfUrl st)). Qed.

(** *** The shape of the store is kept by every handler *)

Lemma initialState_well_formed : well_formed initialState.
Proof.
  unfold well_formed, closed, unshared, authorCount. simpl.
  split_and!; try lia.
  - repeat constructor. by eexists.
  - repeat constructor; by eexists.
  - apply NoDup_singleton.
  - apply NoDup_cons; split; [|apply NoDup_singleton].
    by intros ?%list_elem_of_singleton.
Qed.

Lemma handler_well_formed c st :
  well_formed st -> well_formed (state_of (handler c st)).
Proof.
  intros ((Hca & Hcs) & (Hua & Hus) & Hcount).
  destruct c as [change|index field value| |index|index value|w|]; unfold handler.
  - rewrite handleInputChange_run. unfold state_of; simpl.
    unfold well_formed, closed, unshared, authorCount in *.
    by destruct change as [[] v|b].
  - destruct (decide (0 <= index < Z.of_nat (authorCount st))) as [Hi|Hi].
    + destruct (array_get_valid (authors (formData st)) index Hi) as (l & _ & Hl).
      rewrite (handleAuthorChange_valid st index field value l) by (done || lia).
      unfold state_of; simpl. rewrite with_authors_same.
      unfold well_formed, closed, unshared, authorCount in *; simpl.
      split_and!; try done; try lia.
      eapply Forall_impl; [exact Hca|]. simpl. intros x [a Ha].
      destruct (decide (x = l)) as [->|Hne].
      * rewrite lookup_alter_eq, Ha. by eexists.
      * rewrite lookup_alter_ne by done. by eexists.
    + rewrite handleAuthorChange_invalid by done. unfold state_of; simpl.
      by unfold well_formed, closed, unshared.
  - destruct (decide (authorCount st < 6)%nat) as [Hroom|Hfull].
    + rewrite addAuthor_room by done. unfold state_of; simpl.
      pose proof (is_fresh (dom (authorObjs st))) as Hfresh.
      unfold well_formed, closed, unshared, authorCount in *; simpl.
      split_and!; try done; try lia.
      * apply Forall_app; split.
        -- eapply Forall_impl; [exact Hca|]. simpl. intros x Hx.
           apply lookup_insert_is_Some. destruct (decide (fresh (dom (authorObjs st)) = x)); auto.
        -- repeat constructor. rewrite lookup_insert_eq. by eexists.
      * apply NoDup_app; split_and!; [done| |apply NoDup_singleton].
        intros x Hx ->%list_elem_of_singleton. apply Hfresh.
        rewrite Forall_forall in Hca. by apply elem_of_dom, Hca.
      * rewrite length_app. simpl. lia.
      * rewrite length_app. simpl. lia.
    + rewrite addAuthor_full by lia. unfold state_of; simpl.
      by unfold well_formed, closed, unshared.
  - destruct (decide (1 < authorCount st)%nat) as [Hmore|Hone].
    + rewrite removeAuthor_several by done. unfold state_of; simpl.
      pose proof (array_filter_ne_sublist (authors (formData st)) index) as Hsub.
      pose proof (array_filter_ne_length (authors (formData st)) index) as Hlen.
      unfold well_formed, closed, unshared, authorCount in *; simpl.
      split_and!; try done; try lia.
      * apply sublist_subseteq in Hsub. rewrite Forall_forall in Hca |- *.
        intros x Hx. apply Hca, Hsub, Hx.
      * eapply sublist_NoDup; [exact Hua | exact Hsub].
    + rewrite removeAuthor_last by lia. unfold state_of; simpl.
      by unfold well_formed, closed, unshared.
  - destruct (decide (0 <= index < Z.of_nat (length (sections (formData st)))))
      as [Hi|Hi].
    + destruct (array_get_valid (sections (formData st)) index Hi) as (l & _ & Hl).
      rewrite (sectionOnChange_valid st index value l) by (done || lia).
      unfold state_of; simpl. rewrite with_sections_same.
      unfold well_formed, closed, unshared, authorCount in *; simpl.
      split_and!; try done; try lia.
      eapply Forall_impl; [exact Hcs|]. simpl. intros x [a Ha].
      destruct (decide (x = l)) as [->|Hne].
      * rewrite lookup_alter_eq, Ha. by eexists.
      * rewrite lookup_alter_ne by done. by eexists.
    + rewrite sectionOnChange_invalid by done. unfold state_of; simpl.
      by unfold well_formed, closed, unshared.
  - rewrite handleSubmit_run. simpl.
    destruct (fetch_result w) as [e|r]; [by unfold well_formed, closed, unshared|].
    destruct (ok r); [|by unfold well_formed, closed, unshared].
    destruct (blob_result r); by unfold well_formed, closed, unshared.
  - rewrite downloadPdf_state. by unfold well_formed, closed, unshared.
Qed.

Lemma run_snoc calls c st :
  run (calls ++ [c]) st = state_of (handler c (run calls st)).
Proof. unfold run. by rewrite fold_left_app. Qed.

Lemma run_well_formed calls st : well_formed st -> well_formed (run calls st).
Proof.
  intros Hwf. induction calls as [|c calls IH] using rev_ind; [done|].
  rewrite run_snoc. by apply handler_well_formed.
Qed.

Lemma reachable_well_formed st : reachable st -> well_formed st.
Proof.
  intros [calls ->]. apply run_well_formed, initialState_well_formed.
Qed.

(** *** Download *)

Lemma downloadPdf_truthy st url :
  pdfUrl st = Some ("blob:" +:+ url) ->
  downloadPdf st
  = (Returned tt, st, [LinkClick ("blob:" +:+ url) "ieee_conference_paper.pdf"]).
Proof. intros Hurl. run_handler. by rewrite Hurl. Qed.

Lemma downloadPdf_repeated st url n :
  pdfUrl st = Some ("blob:" +:+ url) ->
  run (replicate n DownloadPdf) st = st
  /\ run_trace (replicate n DownloadPdf) st
     = replicate n (LinkClick ("blob:" +:+ url) "ieee_conference_paper.pdf").
Proof.
  intros Hurl.
  assert (Htr : trace_of (downloadPdf st)
                = [LinkClick ("blob:" +:+ url) "ieee_conference_paper.pdf"])
    by (by rewrite (downloadPdf_truthy st url Hurl)).
  induction n as [|n [IHst IHtr]]; [done|].
  change (replicate (S n) DownloadPdf) with (DownloadPdf :: replicate n DownloadPdf).
  unfold run in *. cbn [fold_left run_trace handler].
  rewrite downloadPdf_state, Htr, IHtr. by split.
Qed.

Lemma unsuccessful_call_pdfUrl c st :
  successful_submit c = false -> pdfUrl (state_of (handler c st)) = pdfUrl st.
Proof.
  intros Hc. destruct c as [change|index field value| |index|index value|w|];
    unfold handler.
  - by rewrite handleInputChange_run.
  - run_handler. by destruct (array_get (authors (formData st)) index).
  - run_handler. by destruct (Z.of_nat (length (authors (formData st))) <? 6).
  - run_handler. by destruct (Z.of_nat (length (authors (formData st))) >? 1).
  - run_handler. by destruct (array_get (sections (formData st)) index).
  - rewrite handleSubmit_run. unfold successful_submit in Hc. simpl.
    destruct (fetch_result w) as [e|r]; [done|].
    destruct (ok r); [|done]. by destruct (blob_result r).
  - by rewrite downloadPdf_state.
Qed.

End AppFacts.

(** * The claims of the specification *)

Import Roman App RomanFacts AppFacts.

(** ** Section numbering *)

(** C1.  For every integer [n] of [1, 3999], [toRoman n] returns (with fuel
    for [n] iterations the loops end, and with this string) the numeral
    that greedy subtraction over the descending table M, CM, D, CD, C, XC,
    L, XL, X, IX, V, IV, I produces: it satisfies the specification's
    encoder, which determines it, and it is the canonical numeral written
    digit by digit.  In particular 1, 4, 9, 14, 19, 20, 40, 90, 400, 900 and
    3999 are encoded as I, IV, IX, XIV, XIX, XX, XL, XC, CD, CM and
    MMMCMXCIX. *)
Theorem toRoman_canonical_greedy (n : Z) (Hn : 1 <= n <= 3999) :
  (forall fuel, (Z.to_nat n <= fuel)%nat -> toRoman_fuel fuel n = Some (toRoman n))
  /\ encode_spec n (toRoman n)
  /\ (forall s, encode_spec n s -> s = toRoman n)
  /\ toRoman n = canonical n
  /\ (fun e => (value e, numeral e)) <$> romanNumerals
     = [ (1000, "M"); (900, "CM"); (500, "D"); (400, "CD"); (100, "C");
         (90, "XC"); (50, "L"); (40, "XL"); (10, "X"); (9, "IX"); (5, "V");
         (4, "IV"); (1, "I") ]
  /\ toRoman <$> [1; 4; 9; 14; 19; 20; 40; 90; 400; 900; 3999]
     = [ "I"; "IV"; "IX"; "XIV"; "XIX"; "XX"; "XL"; "XC"; "CD"; "CM";
         "MMMCMXCIX" ].
Proof.
  assert (Hspec : encode_spec n (toRoman n)) by (apply toRoman_greedy; lia).
  split_and!.
  - intros fuel Hfuel. apply toRoman_fuel_enough; [lia | done].
  - exact Hspec.
  - intros s Hs. exact (greedy_functional _ _ _ _ Hs Hspec).
  - by apply toRoman_canonical.
  - reflexivity.
  - vm_compute. reflexivity.
Qed.

Lemma toRoman_canonical_greedy_witness :
  1 <= 1994 <= 3999
  /\ toRoman_fuel 2000 1994 = Some "MCMXCIV"
  /\ encode_spec 1994 "MCMXCIV".
Proof.
  assert (Hn : 1 <= 1994 <= 3999) by lia.
  destruct (toRoman_canonical_greedy 1994 Hn) as (Hfuel & Hspec & _).
  split; [exact Hn|]. split.
  - exact (Hfuel 2000%nat ltac:(vm_compute; lia)).
  - exact Hspec.
Defined.

(** C10.  For every integer [n <= 0], [toRoman n] ends, with any fuel, and
    returns the empty string: each [while] test fails at once, so no table
    value is subtracted and nothing is appended. *)
Theorem toRoman_below_one (n : Z) (Hn : n <= 0) :
  (forall fuel, toRoman_fuel fuel n = Some "")
  /\ toRoman n = ""
  /\ forall fuel e result,
       e ∈ romanNumerals ->
       while_loop fuel (value e) (numeral e) n result = Some (n, result).
Proof.
  split_and!.
  - intros fuel. by apply toRoman_fuel_nonpositive.
  - unfold toRoman. by rewrite toRoman_fuel_nonpositive.
  - intros fuel e result He. apply while_loop_skip.
    pose proof romanNumerals_positive as Hpos.
    rewrite Forall_forall in Hpos. specialize (Hpos e He). lia.
Qed.

Lemma toRoman_below_one_witness :
  -7 <= 0 /\ toRoman_fuel 0 (-7) = Some "" /\ toRoman (-7) = "".
Proof.
  assert (Hn : -7 <= 0) by lia.
  destruct (toRoman_below_one (-7) Hn) as (Hfuel & Hret & _).
  split; [exact Hn|]. split; [exact (Hfuel 0%nat) | exact Hret].
Defined.

(** C4.  In every section list the label of the section at index 0 is
    "Introduction", and the label of the section at an index [i >= 1] is
    "Section " followed by [toRoman (i + 1)]; the section at index 1 is
    labelled "Section II". *)
Theorem sectionLabels_by_position {A} (sections : list A) (i : nat)
    (Hi : (i < length sections)%nat) :
  (i = 0%nat -> sectionLabels sections !! i = Some "Introduction")
  /\ ((1 <= i)%nat ->
      sectionLabels sections !! i
      = Some ("Section " +:+ toRoman (Z.of_nat i + 1)))
  /\ (i = 1%nat -> sectionLabels sections !! i = Some "Section II").
Proof.
  destruct (lookup_lt_is_Some_2 sections i Hi) as [x Hx].
  assert (Hlabel : sectionLabels sections !! i = Some (sectionLabel (Z.of_nat i))).
  { unfold sectionLabels. by rewrite list_lookup_imap, Hx. }
  rewrite Hlabel. unfold sectionLabel. split_and!.
  - by intros ->.
  - intros Hpos. destruct (Z.eqb_spec (Z.of_nat i) 0); [lia | done].
  - by intros ->.
Qed.

Lemma sectionLabels_by_position_witness :
  (2 < length (sections (formData initialState) ++ [7%nat]))%nat
  /\ sectionLabels (sections (formData initialState) ++ [7%nat]) !! 2%nat
     = Some "Section III".
Proof.
  assert (Hi : (2 < length (sections (formData initialState) ++ [7%nat]))%nat)
    by (simpl; lia).
  split; [exact Hi|].
  exact (proj1 (proj2 (sectionLabels_by_position _ 2%nat Hi)) ltac:(lia)).
Defined.

(** ** The author roster *)



(** C3.  In every state (whose arrays hold no dangling reference),
    [removeAuthor index] changes nothing when the roster has exactly 1
    author; with more than one it removes exactly the author at [index]:
    the authors before and after that position stay, in their order, and
    the rest of the document is as it was (an [index] that is no position
    of the list removes nothing).  Consequently, from the initial
    document, the number of authors never falls below 1, whatever the
    sequence of handler calls. *)
Theorem removeAuthor_floor (st : AppState) (index : Z) (Hclosed : closed st) :
  (authorCount st = 1%nat -> removeAuthor index st = (Returned tt, st, []))
  /\ ((1 < authorCount st)%nat ->
      0 <= index < Z.of_nat (authorCount st) ->
      result_of (removeAuthor index st) = Returned tt
      /\ document (state_of (removeAuthor index st))
         = with_authors (document st)
             (take (Z.to_nat index) (authors (document st))
              ++ drop (S (Z.to_nat index)) (authors (document st)))
      /\ authorCount (state_of (removeAuthor index st)) = (authorCount st - 1)%nat)
  /\ (~ (0 <= index < Z.of_nat (authorCount st)) ->
      result_of (removeAuthor index st) = Returned tt
      /\ document (state_of (removeAuthor index st)) = document st)
  /\ forall calls, (1 <= authorCount (run calls initialState))%nat.
Proof.
  destruct Hclosed as [Hca Hcs]. split_and!.
  - intros Hone. apply removeAuthor_last. lia.
  - intros Hmore Hi. rewrite removeAuthor_several by done.
    unfold result_of, state_of, authorCount in *; simpl.
    rewrite array_filter_ne_valid by done. split_and!.
    + done.
    + unfold document, with_authors, with_sections; simpl. f_equal.
      rewrite <- delete_take_drop. by apply omap_delete_closed.
    + rewrite length_delete; [done|]. apply lookup_lt_is_Some_2. lia.
  - intros Hi. destruct (decide (1 < authorCount st)%nat) as [Hmore|Hone].
    + rewrite removeAuthor_several by done.
      unfold result_of, state_of, authorCount in *; simpl.
      rewrite array_filter_ne_invalid by done. by rewrite with_authors_same.
    + by rewrite removeAuthor_last by lia.
  - intros calls.
    pose proof (run_well_formed calls _ initialState_well_formed) as (_ & _ & Hcount).
    lia.
Qed.

Lemma removeAuthor_floor_witness :
  closed initialState
  /\ removeAuthor 0 initialState = (Returned tt, initialState, [])
  /\ (1 <= authorCount (run [RemoveAuthor 0; RemoveAuthor 0] initialState))%nat.
Proof.
  assert (Hclosed : closed initialState) by apply initialState_well_formed.
  destruct (removeAuthor_floor initialState 0 Hclosed) as (Hone & _ & _ & Hmin).
  split; [exact Hclosed|]. split.
  - exact (Hone eq_refl).
  - apply Hmin.
Defined.



(** ** The generation request *)

(** C5 (as the code has it).  In every state, [handleSubmit] sends exactly
    one request: a POST to /api/generate-pdf with content type
    application/json whose body is the document as one flat object with the
    properties title, paperNotice, funding, dropCap, authors, abstract,
    keywords, sections and references, in this order; authors and sections
    are arrays of objects, an author with its seven properties and a section
    with title, content and, when it has one, subsections. *)
Theorem handleSubmit_request (st : AppState) (w : world) :
  sent_requests (trace_of (handleSubmit w st))
  = [ ("/api/generate-pdf",
       mkRequestInit "POST" [("Content-Type", "application/json")]
         (formData_json (document st))) ]
  /\ formData_json (document st)
     = JObject
         [ ("title", JString (title (document st)));
           ("paperNotice", JString (paperNotice (document st)));
           ("funding", JString (funding (document st)));
           ("dropCap", JBool (dropCap (document st)));
           ("authors", JArray (author_json <$> authors (document st)));
           ("abstract", JString (abstract (document st)));
           ("keywords", JString (keywords (document st)));
           ("sections", JArray (section_json <$> sections (document st)));
           ("references", JString (references (document st))) ]
  /\ keys (formData_json (document st))
     = [ "title"; "paperNotice"; "funding"; "dropCap"; "authors"; "abstract";
         "keywords"; "sections"; "references" ]
  /\ (forall a, keys (author_json a)
        = [ "firstName"; "lastName"; "membership"; "department";
            "organization"; "cityCountry"; "email" ])
  /\ (forall s, keys (section_json s)
        = [ "title"; "content" ]
          ++ match s_subsections s with Some _ => [ "subsections" ] | None => [] end).
Proof.
  split_and!; try reflexivity.
  - rewrite handleSubmit_run. unfold trace_of. simpl.
    destruct (fetch_result w) as [e|r]; [done|].
    destruct (ok r); [|done]. by destruct (blob_result r).
  - intros s. unfold section_json, keys. by destruct (s_subsections s).
Qed.

(** C5, as stated, fails on the initial document: the body of the request
    has a property dropCap and none named dropCapEnabled. *)
Lemma handleSubmit_request_field_names_differ :
  (fun request => keys (body request.2))
    <$> sent_requests (trace_of (handleSubmit world_accepting initialState))
  = [ [ "title"; "paperNotice"; "funding"; "dropCap"; "authors"; "abstract";
        "keywords"; "sections"; "references" ] ]
  /\ (fun request => keys (body request.2))
       <$> sent_requests (trace_of (handleSubmit world_accepting initialState))
     <> [ spec_field_names ].
Proof.
  split; [reflexivity|]. vm_compute. discriminate.
Qed.

(** C6 (as the code has it).  When the service answers with a status outside
    200-299, [handleSubmit] reports it by [console.error('Error generating
    PDF')]; when no response is received, it reports the error caught by
    [console.error('Error:', error)].  In both cases it returns normally, no
    object URL is created and the whole state, the stored [pdfUrl] included,
    is as it was. *)
Theorem handleSubmit_failures (st : AppState) (w : world) :
  (forall r,
     fetch_result w = inr r -> ~ (200 <= status r <= 299) ->
     handleSubmit w st
     = (Returned tt, st,
        [ PreventDefault;
          FetchCall "/api/generate-pdf"
            (mkRequestInit "POST" [("Content-Type", "application/json")]
               (formData_json (document st)));
          ConsoleError [LogString "Error generating PDF"] ]))
  /\ (forall e,
        fetch_result w = inl e ->
        handleSubmit w st
        = (Returned tt, st,
           [ PreventDefault;
             FetchCall "/api/generate-pdf"
               (mkRequestInit "POST" [("Content-Type", "application/json")]
                  (formData_json (document st)));
             ConsoleError [LogString "Error:"; LogError e] ])).
Proof.
  split.
  - intros r Hr Hstatus. rewrite handleSubmit_run, Hr. simpl.
    assert (ok r = false) as ->; [|done].
    unfold ok. apply andb_false_iff.
    destruct (Z.leb_spec 200 (status r)); [|by left].
    destruct (Z.leb_spec (status r) 299); [lia | by right].
  - intros e He. by rewrite handleSubmit_run, He.
Qed.

Lemma handleSubmit_failures_witness :
  fetch_result world_rejecting
  = inr (mkResponse 500 (inr "Internal Server Error"))
  /\ ~ (200 <= 500 <= 299)
  /\ state_of (handleSubmit world_rejecting initialState) = initialState
  /\ fetch_result world_unreachable = inl (TypeError "Failed to fetch")
  /\ state_of (handleSubmit world_unreachable initialState) = initialState.
Proof.
  destruct (handleSubmit_failures initialState world_rejecting) as [Hrejected _].
  destruct (handleSubmit_failures initialState world_unreachable) as [_ Hfailed].
  assert (Hstatus : ~ (200 <= 500 <= 299)) by lia.
  split_and!; [reflexivity | exact Hstatus | | reflexivity |].
  - rewrite (Hrejected _ eq_refl Hstatus). reflexivity.
  - rewrite (Hfailed _ eq_refl). reflexivity.
Defined.

(** C6, as stated, fails: on a 500 response and on a transport failure
    [handleSubmit] returns normally; it yields no error. *)
Lemma handleSubmit_yields_no_error :
  result_of (handleSubmit world_rejecting initialState) = Returned tt
  /\ result_of (handleSubmit world_unreachable initialState) = Returned tt
  /\ ~ (exists e, result_of (handleSubmit world_rejecting initialState) = Thrown e)
  /\ ~ (exists e, result_of (handleSubmit world_unreachable initialState) = Thrown e).
Proof.
  split_and!; [reflexivity | reflexivity | |]; intros [e He]; vm_compute in He;
    discriminate.
Qed.

(** ** Download *)

(** C7 (as the code has it).  While no successful submit has stored a
    handle, [pdfUrl] is [null] and [downloadPdf] does nothing: it delivers
    no file and raises no error.  After a successful submit, [pdfUrl] holds
    the object URL, and every call of [downloadPdf], however many are made,
    delivers it under the name ieee_conference_paper.pdf and leaves the
    state as it is. *)
Theorem downloadPdf_by_handle (st : AppState) :
  (pdfUrl st = None -> downloadPdf st = (Returned tt, st, []))
  /\ (forall calls,
        Forall (fun c => successful_submit c = false) calls ->
        pdfUrl (run calls initialState) = None)
  /\ (forall w n,
        successful_submit (HandleSubmit w) = true ->
        pdfUrl (state_of (handleSubmit w st)) = Some ("blob:" +:+ next_uuid w)
        /\ run (replicate n DownloadPdf) (state_of (handleSubmit w st))
           = state_of (handleSubmit w st)
        /\ run_trace (replicate n DownloadPdf) (state_of (handleSubmit w st))
           = replicate n
               (LinkClick ("blob:" +:+ next_uuid w) "ieee_conference_paper.pdf")).
Proof.
  split_and!.
  - intros Hnone. run_handler. by rewrite Hnone.
  - intros calls Hcalls.
    induction calls as [|c calls IH] using rev_ind; [done|].
    apply Forall_app in Hcalls as [Hcalls Hc].
    apply (proj1 (Forall_singleton _ _)) in Hc.
    rewrite run_snoc. rewrite unsuccessful_call_pdfUrl by exact Hc. by apply IH.
  - intros w n Hw.
    assert (Hurl : pdfUrl (state_of (handleSubmit w st))
                   = Some ("blob:" +:+ next_uuid w)).
    { rewrite handleSubmit_run. unfold successful_submit in Hw. simpl.
      destruct (fetch_result w) as [e|r]; [done|].
      destruct (ok r); [|done]. by destruct (blob_result r). }
    split; [exact Hurl|]. by apply downloadPdf_repeated.
Qed.

Lemma downloadPdf_by_handle_witness :
  pdfUrl initialState = None
  /\ downloadPdf initialState = (Returned tt, initialState, [])
  /\ successful_submit (HandleSubmit world_accepting) = true
  /\ run_trace (replicate 3 DownloadPdf)
       (state_of (handleSubmit world_accepting initialState))
     = replicate 3 (LinkClick "blob:0b7c" "ieee_conference_paper.pdf").
Proof.
  destruct (downloadPdf_by_handle initialState) as (Hnone & _ & Hsome).
  split; [reflexivity|]. split; [exact (Hnone eq_refl)|].
  split; [reflexivity|].
  exact (proj2 (proj2 (Hsome world_accepting 3%nat eq_refl))).
Defined.

(** C7, as stated, fails: before any submit [downloadPdf] returns normally
    instead of failing, and after one successful submit two downloads in a
    row both deliver the file. *)
Lemma downloadPdf_not_once :
  result_of (downloadPdf initialState) = Returned tt
  /\ deliveries
       (run_trace [HandleSubmit world_accepting; DownloadPdf; DownloadPdf]
          initialState)
     = [ ("blob:0b7c", "ieee_conference_paper.pdf");
         ("blob:0b7c", "ieee_conference_paper.pdf") ].
Proof. split; reflexivity. Qed.

(** ** Validation *)

(** C8 (as the code has it).  The component builds no list of violations
    and [handleSubmit] does not look at the document: in every state it
    sends the generation request with the document as it is and returns
    normally.  The only gate is the one of the form: while a required input
    is the empty string the submit click calls nothing, and otherwise it
    calls [handleSubmit].  On the initial document, whose title, abstract,
    keywords and author fields are all empty, the click is stopped in this
    way: nothing is sent and no error is raised. *)
Theorem submission_is_not_validated (st : AppState) (w : world) :
  result_of (handleSubmit w st) = Returned tt
  /\ (exists rest,
        trace_of (handleSubmit w st)
        = PreventDefault
          :: FetchCall "/api/generate-pdf"
               (mkRequestInit "POST" [("Content-Type", "application/json")]
                  (formData_json (document st)))
          :: rest)
  /\ (required_filled (document st) = false ->
      submitForm w st = (Returned tt, st, []))
  /\ (required_filled (document st) = true ->
      submitForm w st = handleSubmit w st)
  /\ document initialState
     = mkFormData "" "" "" true [mkAuthor "" "" "" "" "" "" ""] "" ""
         [ mkSection "Introduction" "" None; mkSection "Section II" "" (Some []) ]
         ""
  /\ submitForm w initialState = (Returned tt, initialState, []).
Proof.
  split_and!.
  - rewrite handleSubmit_run. unfold result_of. simpl.
    destruct (fetch_result w) as [e|r]; [done|].
    destruct (ok r); [|done]. by destruct (blob_result r).
  - rewrite handleSubmit_run. unfold trace_of. simpl.
    destruct (fetch_result w) as [e|r]; eauto.
    destruct (ok r); eauto. destruct (blob_result r); eauto.
  - intros Hgate. unfold submitForm, get_document, mbind, M_bind, mret, M_ret.
    by rewrite Hgate.
  - intros Hgate. unfold submitForm, get_document, mbind, M_bind.
    rewrite Hgate. by destruct (handleSubmit w st) as [[r st'] tr].
  - reflexivity.
  - reflexivity.
Qed.

Lemma submission_is_not_validated_witness :
  required_filled (document initialState) = false
  /\ submitForm world_accepting initialState = (Returned tt, initialState, [])
  /\ required_filled (document blankState) = true
  /\ submitForm world_accepting blankState = handleSubmit world_accepting blankState.
Proof.
  destruct (submission_is_not_validated initialState world_accepting)
    as (_ & _ & Hstopped & _).
  destruct (submission_is_not_validated blankState world_accepting)
    as (_ & _ & _ & Hpassed & _).
  split_and!; [reflexivity | exact (Hstopped eq_refl) | reflexivity
              | exact (Hpassed eq_refl)].
Defined.

(** C8, as stated, fails.  [handleSubmit] called on the initial document,
    with every required field empty, sends the request and stores the
    artifact; the submit click on that document returns normally, without
    any error; and a document whose required fields hold a single space
    each, empty after trimming, passes the form and is sent. *)
Lemma empty_document_is_submitted :
  result_of (handleSubmit world_accepting initialState) = Returned tt
  /\ length (sent_requests (trace_of (handleSubmit world_accepting initialState)))
     = 1%nat
  /\ pdfUrl (state_of (handleSubmit world_accepting initialState))
     = Some "blob:0b7c"
  /\ result_of (submitForm world_accepting initialState) = Returned tt
  /\ title (document blankState) = " "
  /\ length (sent_requests (trace_of (submitForm world_accepting blankState)))
     = 1%nat
  /\ pdfUrl (state_of (submitForm world_accepting blankState))
     = Some "blob:0b7c".
Proof. split_and!; reflexivity. Qed.

(** * Further properties of the code *)

Module MoreFacts.
Import Roman App View RomanFacts AppFacts.

(** *** The loops, result by result *)

(** The [while] loop of one table entry divides: it leaves the remainder
    and appends the symbol once per unit of the quotient. *)
Lemma while_loop_divides fuel : forall v sym num result,
  0 < v -> 0 <= num -> (Z.to_nat num <= fuel)%nat ->
  while_loop fuel v sym num result
  = Some (num mod v, result +:+ repeat_string (Z.to_nat (num / v)) sym).
Proof.
  induction fuel as [|fuel IH]; intros v sym num result Hv Hnum Hfuel.
  - assert (num = 0) as -> by lia.
    rewrite while_loop_skip by lia.
    rewrite Z.mod_0_l, Z.div_0_l by lia. simpl. by rewrite string_app_nil_r.
  - destruct (Z.lt_ge_cases num v) as [Hlt|Hge].
    + rewrite while_loop_skip by lia.
      rewrite Z.mod_small, Z.div_small by lia. simpl. by rewrite string_app_nil_r.
    + rewrite while_loop_enter by lia. rewrite IH by lia.
      assert (Hmod : (num - v) mod v = num mod v).
      { rewrite <- (Z_mod_plus_full (num - v) 1 v). f_equal. lia. }
      assert (Hdiv : num / v = (num - v) / v + 1).
      { rewrite <- (Z_div_plus_full (num - v) 1 v) by lia. f_equal. lia. }
      assert (0 <= (num - v) / v) by (apply Z.div_pos; lia).
      rewrite Hmod, Hdiv.
      replace (Z.to_nat ((num - v) / v + 1)) with (S (Z.to_nat ((num - v) / v)))
        by lia.
      simpl. by rewrite string_app_assoc.
Qed.

(** What is already in [result] stays in front. *)
Lemma while_loop_result fuel : forall v sym num result,
  while_loop fuel v sym num result
  = (fun r => (r.1, result +:+ r.2)) <$> while_loop fuel v sym num "".
Proof.
  induction fuel as [|fuel IH]; intros v sym num result; simpl.
  - destruct (num >=? v); simpl; [done | by rewrite string_app_nil_r].
  - destruct (num >=? v); simpl; [|by rewrite string_app_nil_r].
    rewrite (IH v sym (num - v) (result +:+ sym)).
    rewrite (IH v sym (num - v) ("" +:+ sym)).
    destruct (while_loop fuel v sym (num - v) "") as [[n s]|]; simpl; [|done].
    by rewrite string_app_assoc.
Qed.

Lemma for_of_result fuel table : forall num result,
  for_of fuel table num result
  = (fun s => result +:+ s) <$> for_of fuel table num "".
Proof.
  induction table as [|e rest IH]; intros num result; simpl.
  - by rewrite string_app_nil_r.
  - rewrite (while_loop_result fuel (value e) (numeral e) num result).
    destruct (while_loop fuel (value e) (numeral e) num "") as [[n s]|];
      simpl; [|done].
    rewrite (IH n (result +:+ s)), (IH n s).
    destruct (for_of fuel rest n "") as [s'|]; simpl; [|done].
    by rewrite string_app_assoc.
Qed.

Lemma toRoman_thousands_aux n :
  0 <= n ->
  toRoman n
  = repeat_string (Z.to_nat (n / 1000)) "M" +:+ toRoman (n mod 1000).
Proof.
  intros Hn.
  assert (Hr : 0 <= n mod 1000 < 1000) by (apply Z.mod_pos_bound; lia).
  assert (Hrn : n mod 1000 <= n) by (apply Z.mod_le; lia).
  pose proof (toRoman_fuel_enough n (Z.to_nat n) Hn (le_n _)) as Hfull.
  pose proof (toRoman_fuel_enough (n mod 1000) (Z.to_nat n)
                ltac:(lia) ltac:(lia)) as Hrest.
  assert (Hunfold : forall fuel m,
    toRoman_fuel fuel m
    = match while_loop fuel 1000 "M" m "" with
      | Some (m', result) => for_of fuel (tail romanNumerals) m' result
      | None => None
      end) by reflexivity.
  rewrite Hunfold in Hfull, Hrest.
  remember (tail romanNumerals) as rest eqn:Erest.
  rewrite while_loop_divides in Hfull by lia.
  rewrite while_loop_skip in Hrest by lia.
  rewrite for_of_result, Hrest in Hfull. simpl in Hfull.
  by injection Hfull as <-.
Qed.

(** Below 1000 the numerals are pairwise distinct and none starts with M,
    by running the encoder on each. *)
Lemma toRoman_below_1000_checked :
  bool_decide (NoDup (toRoman <$> seqZ 0 1000))
  && forallb (fun n => negb (String.prefix "M" (toRoman n))) (seqZ 0 1000)
  = true.
Proof. vm_compute. reflexivity. Qed.

Lemma toRoman_below_1000_injective a b :
  0 <= a < 1000 -> 0 <= b < 1000 -> toRoman a = toRoman b -> a = b.
Proof.
  intros Ha Hb Hab.
  pose proof toRoman_below_1000_checked as [Hnd%bool_decide_eq_true_1 _]%andb_prop.
  assert (Hla : (toRoman <$> seqZ 0 1000) !! Z.to_nat a = Some (toRoman a)).
  { rewrite list_lookup_fmap, (proj2 (lookup_seqZ 0 1000 (Z.to_nat a) a)); [done|lia]. }
  assert (Hlb : (toRoman <$> seqZ 0 1000) !! Z.to_nat b = Some (toRoman a)).
  { rewrite Hab, list_lookup_fmap, (proj2 (lookup_seqZ 0 1000 (Z.to_nat b) b));
      [done|lia]. }
  pose proof (NoDup_lookup _ _ _ _ Hnd Hla Hlb). lia.
Qed.

Lemma toRoman_below_1000_no_M n :
  0 <= n < 1000 -> String.prefix "M" (toRoman n) = false.
Proof.
  intros Hn.
  pose proof toRoman_below_1000_checked as [_ Hall]%andb_prop.
  rewrite forallb_forall in Hall. apply negb_true_iff, Hall.
  apply list_elem_of_In, elem_of_seqZ. lia.
Qed.

(** A run of M in front of a string that does not start with M can be read
    back. *)
Lemma repeat_M_cancel k : forall j s t,
  String.prefix "M" s = false -> String.prefix "M" t = false ->
  repeat_string k "M" +:+ s = repeat_string j "M" +:+ t ->
  k = j /\ s = t.
Proof.
  assert (Hcons : forall n u,
    repeat_string (S n) "M" +:+ u = String "M"%char (repeat_string n "M" +:+ u))
    by reflexivity.
  induction k as [|k IH]; intros [|j] s t Hs Ht Heq.
  - done.
  - rewrite Hcons in Heq. change (repeat_string 0 "M" +:+ s) with s in Heq.
    subst s. simpl in Hs. by destruct (repeat_string j "M" +:+ t).
  - rewrite Hcons in Heq. change (repeat_string 0 "M" +:+ t) with t in Heq.
    subst t. simpl in Ht. by destruct (repeat_string k "M" +:+ s).
  - rewrite !Hcons in Heq. injection Heq as Heq.
    destruct (IH j s t Hs Ht Heq) as [-> ->]. done.
Qed.

Lemma toRoman_injective_aux a b :
  0 <= a -> 0 <= b -> toRoman a = toRoman b -> a = b.
Proof.
  intros Ha Hb Hab.
  assert (Hra : 0 <= a mod 1000 < 1000) by (apply Z.mod_pos_bound; lia).
  assert (Hrb : 0 <= b mod 1000 < 1000) by (apply Z.mod_pos_bound; lia).
  rewrite (toRoman_thousands_aux a), (toRoman_thousands_aux b) in Hab by done.
  apply repeat_M_cancel in Hab as [Hq Hr];
    [|by apply toRoman_below_1000_no_M..].
  apply toRoman_below_1000_injective in Hr; [|done..].
  assert (0 <= a / 1000) by (apply Z.div_pos; lia).
  assert (0 <= b / 1000) by (apply Z.div_pos; lia).
  rewrite (Z.div_mod a 1000), (Z.div_mod b 1000) by lia. lia.
Qed.


Lemma sectionLabel_injective i j :
  0 <= i -> 0 <= j -> sectionLabel i = sectionLabel j -> i = j.
Proof.
  intros Hi Hj. unfold sectionLabel.
  assert (Hsection : forall s, "Section " +:+ s = String "S"%char ("ection " +:+ s))
    by reflexivity.
  destruct (Z.eqb_spec i 0) as [->|Hi0], (Z.eqb_spec j 0) as [->|Hj0].
  - done.
  - rewrite Hsection. discriminate.
  - rewrite Hsection. discriminate.
  - intros Heq%(inj (String.app "Section ")).
    apply toRoman_injective_aux in Heq; lia.
Qed.

End MoreFacts.

Import View MoreFacts.

(** ** The encoder outside the range of the specification *)






(** X4.  The labels rendered for a section list are pairwise distinct, one
    per section, however long the list is. *)
Theorem sectionLabels_distinct {A} (sections : list A) :
  NoDup (sectionLabels sections)
  /\ length (sectionLabels sections) = length sections.
Proof.
  unfold sectionLabels. split; [|apply length_imap].
  apply NoDup_alt. intros i j label.
  rewrite !list_lookup_imap.
  destruct (sections !! i), (sections !! j); simpl; try done.
  intros [= Hi] [= Hj]. subst label.
  apply sectionLabel_injective in Hj; lia.
Qed.

(** ** Top-level fields *)

(** X5.  [handleInputChange] on a text input returns, without any effect on
    the outside; the field reads back as the value written, every other
    text field, the flag, the two arrays, the store and [pdfUrl] are as
    before.  Writing a field twice keeps the last value, and writes to two
    different fields give the same state in either order. *)
Theorem handleInputChange_fields (st : AppState) (field : textField)
    (value : string) :
  result_of (handleInputChange (ChangeText field value) st) = Returned tt
  /\ trace_of (handleInputChange (ChangeText field value) st) = []
  /\ text_field field
       (formData (state_of (handleInputChange (ChangeText field value) st)))
     = value
  /\ (forall field',
        field' <> field ->
        text_field field'
          (formData (state_of (handleInputChange (ChangeText field value) st)))
        = text_field field' (formData st))
  /\ (let st' := state_of (handleInputChange (ChangeText field value) st) in
      dropCap (formData st') = dropCap (formData st)
      /\ authors (formData st') = authors (formData st)
      /\ sections (formData st') = sections (formData st)
      /\ pdfUrl st' = pdfUrl st
      /\ authorObjs st' = authorObjs st
      /\ sectionObjs st' = sectionObjs st)
  /\ (forall value',
        run [ HandleInputChange (ChangeText field value');
              HandleInputChange (ChangeText field value) ] st
        = run [ HandleInputChange (ChangeText field value) ] st)
  /\ (forall field' value',
        field' <> field ->
        run [ HandleInputChange (ChangeText field value);
              HandleInputChange (ChangeText field' value') ] st
        = run [ HandleInputChange (ChangeText field' value');
                HandleInputChange (ChangeText field value) ] st).
Proof.
  split_and!.
  - done.
  - done.
  - by destruct field.
  - intros field' Hne. by destruct field, field'.
  - by destruct field.
  - intros value'. unfold run; simpl. rewrite !handleInputChange_run.
    unfold state_of; simpl. by destruct field.
  - intros field' value' Hne. unfold run; simpl. rewrite !handleInputChange_run.
    unfold state_of; simpl. by destruct field, field'.
Qed.

Lemma handleInputChange_fields_witness :
  Abstract <> Title
  /\ run [ HandleInputChange (ChangeText Title "On Loops");
           HandleInputChange (ChangeText Abstract "We study loops.") ] initialState
     = run [ HandleInputChange (ChangeText Abstract "We study loops.");
             HandleInputChange (ChangeText Title "On Loops") ] initialState.
Proof.
  assert (Hne : Abstract <> Title) by discriminate.
  split; [exact Hne|].
  destruct (handleInputChange_fields initialState Title "On Loops")
    as (_ & _ & _ & _ & _ & _ & Hcommute).
  exact (Hcommute Abstract "We study loops." Hne).
Defined.

(** ** The generation exchange *)

(** X6.  When the service answers with a status of 200-299 and the body can
    be read, [handleSubmit] creates an object URL for the body received and
    stores it in [pdfUrl], in place of whatever was there; it logs nothing,
    returns normally, and the document and the store are untouched. *)
Theorem handleSubmit_success (st : AppState) (w : world) (r : Response)
    (blob : string)
    (Hfetch : fetch_result w = inr r)
    (Hstatus : 200 <= status r <= 299)
    (Hblob : blob_result r = inr blob) :
  handleSubmit w st
  = (Returned tt,
     mkAppState (formData st) (Some ("blob:" +:+ next_uuid w))
       (authorObjs st) (sectionObjs st),
     [ PreventDefault;
       FetchCall "/api/generate-pdf"
         (mkRequestInit "POST" [("Content-Type", "application/json")]
            (formData_json (document st)));
       CreateObjectURL blob ("blob:" +:+ next_uuid w) ])
  /\ document (state_of (handleSubmit w st)) = document st
  /\ truthy (pdfUrl (state_of (handleSubmit w st))) = true.
Proof.
  assert (Hok : ok r = true).
  { unfold ok. apply andb_true_iff. split; apply Z.leb_le; lia. }
  rewrite handleSubmit_run, Hfetch. simpl. rewrite Hok, Hblob. done.
Qed.

Lemma handleSubmit_success_witness :
  fetch_result world_accepting = inr (mkResponse 200 (inr "%PDF-1.5"))
  /\ 200 <= 200 <= 299
  /\ pdfUrl (state_of (handleSubmit world_accepting initialState))
     = Some "blob:0b7c".
Proof.
  assert (Hstatus : 200 <= 200 <= 299) by lia.
  split; [reflexivity|]. split; [exact Hstatus|].
  destruct (handleSubmit_success initialState world_accepting
              (mkResponse 200 (inr "%PDF-1.5")) "%PDF-1.5"
              eq_refl Hstatus eq_refl) as (Hrun & _).
  rewrite Hrun. reflexivity.
Defined.

(** X7.  When the service answers with a status of 200-299 but reading the
    body fails, [handleSubmit] ends in its [catch]: it logs 'Error:' with
    the error, creates no object URL, returns normally and leaves the whole
    state, the stored [pdfUrl] included, as it was. *)
Theorem handleSubmit_unreadable_body (st : AppState) (w : world) (r : Response)
    (e : exn)
    (Hfetch : fetch_result w = inr r)
    (Hstatus : 200 <= status r <= 299)
    (Hblob : blob_result r = inl e) :
  handleSubmit w st
  = (Returned tt, st,
     [ PreventDefault;
       FetchCall "/api/generate-pdf"
         (mkRequestInit "POST" [("Content-Type", "application/json")]
            (formData_json (document st)));
       ConsoleError [LogString "Error:"; LogError e] ]).
Proof.
  assert (Hok : ok r = true).
  { unfold ok. apply andb_true_iff. split; apply Z.leb_le; lia. }
  rewrite handleSubmit_run, Hfetch. simpl. by rewrite Hok, Hblob.
Qed.

Lemma handleSubmit_unreadable_body_witness :
  200 <= 204 <= 299
  /\ state_of
       (handleSubmit
          (mkWorld (inr (mkResponse 204 (inl (TypeError "body stream already read"))))
             "0b7c")
          initialState)
     = initialState.
Proof.
  assert (Hstatus : 200 <= 204 <= 299) by lia.
  split; [exact Hstatus|].
  rewrite (handleSubmit_unreadable_body initialState
             (mkWorld (inr (mkResponse 204 (inl (TypeError "body stream already read"))))
                "0b7c")
             (mkResponse 204 (inl (TypeError "body stream already read")))
             (TypeError "body stream already read") eq_refl Hstatus eq_refl).
  reflexivity.
Defined.

(** X8.  Over any sequence of handler calls, [pdfUrl] ends as the object
    URL of the last successful submit of the sequence, or as it started when
    there is none: no other handler and no failed submit changes or clears
    it.  So once the download section is rendered it stays. *)
Theorem pdfUrl_last_successful_submit (calls : list call) (st : AppState) :
  pdfUrl (run calls st) = last_handle calls (pdfUrl st)
  /\ (truthy (pdfUrl st) = true -> truthy (pdfUrl (run calls st)) = true).
Proof.
  assert (Hlast : forall calls st,
            pdfUrl (run calls st) = last_handle calls (pdfUrl st)).
  { clear. intros calls. induction calls as [|c calls IH]; intros st; [done|].
    change (run (c :: calls) st) with (run calls (state_of (handler c st))).
    rewrite IH. simpl. f_equal.
    destruct (successful_submit c) eqn:Hc.
    - destruct c as [| | | | |w|]; try done.
      unfold handler. rewrite handleSubmit_run. unfold successful_submit in Hc.
      simpl. destruct (fetch_result w) as [e|r]; [done|].
      destruct (ok r); [|done]. by destruct (blob_result r).
    - rewrite unsuccessful_call_pdfUrl by done. by destruct c. }
  split; [apply Hlast|].
  rewrite Hlast. generalize (pdfUrl st). clear.
  induction calls as [|c calls IH]; intros current Hcurrent; [done|].
  simpl. apply IH. destruct c as [| | | | |w|]; try done.
  by destruct (successful_submit (HandleSubmit w)).
Qed.

Lemma pdfUrl_last_successful_submit_witness :
  truthy (pdfUrl (state_of (handleSubmit world_accepting initialState))) = true
  /\ pdfUrl
       (run [ HandleSubmit world_rejecting; DownloadPdf; AddAuthor;
              HandleSubmit world_unreachable ]
          (state_of (handleSubmit world_accepting initialState)))
     = Some "blob:0b7c".
Proof.
  split; [reflexivity|].
  rewrite (proj1 (pdfUrl_last_successful_submit _ _)). reflexivity.
Defined.

(** ** Sessions *)

Module SessionFacts.
Import App View AppFacts.

(** The two sections of the initial state stay where they are, with their
    titles and their [subsections] property, through every handler. *)
Lemma handler_sections_fixed c st :
  (sections (formData st) = [0%nat; 1%nat]
   /\ exists c0 c1,
        sectionObjs st !! 0%nat = Some (mkSection "Introduction" c0 None)
        /\ sectionObjs st !! 1%nat = Some (mkSection "Section II" c1 (Some []))) ->
  sections (formData (state_of (handler c st))) = [0%nat; 1%nat]
  /\ exists c0 c1,
       sectionObjs (state_of (handler c st)) !! 0%nat
       = Some (mkSection "Introduction" c0 None)
       /\ sectionObjs (state_of (handler c st)) !! 1%nat
          = Some (mkSection "Section II" c1 (Some [])).
Proof.
  intros (Hsecs & c0 & c1 & H0 & H1).
  destruct c as [change|index field value| |index|index value|w|]; unfold handler.
  - rewrite handleInputChange_run. unfold state_of; simpl.
    split; [by destruct change as [[] v|b] | eauto].
  - destruct (decide (0 <= index < Z.of_nat (authorCount st))) as [Hi|Hi].
    + destruct (array_get_valid (authors (formData st)) index Hi) as (l & _ & Hl).
      rewrite (handleAuthorChange_valid st index field value l) by (done || lia).
      unfold state_of; simpl. eauto.
    + rewrite handleAuthorChange_invalid by done. unfold state_of; simpl. eauto.
  - destruct (decide (authorCount st < 6)%nat) as [Hroom|Hfull].
    + rewrite addAuthor_room by done. unfold state_of; simpl. eauto.
    + rewrite addAuthor_full by lia. unfold state_of; simpl. eauto.
  - destruct (decide (1 < authorCount st)%nat) as [Hmore|Hone].
    + rewrite removeAuthor_several by done. unfold state_of; simpl. eauto.
    + rewrite removeAuthor_last by lia. unfold state_of; simpl. eauto.
  - destruct (decide (0 <= index < Z.of_nat (length (sections (formData st)))))
      as [Hi|Hi].
    + destruct (array_get_valid (sections (formData st)) index Hi) as (l & _ & Hl).
      rewrite (sectionOnChange_valid st index value l) by (done || lia).
      unfold state_of; simpl. split; [done|].
      rewrite Hsecs in Hl.
      destruct (Z.to_nat index) as [|[|k]]; simpl in Hl; [| |done].
      * injection Hl as <-. exists value, c1.
        rewrite lookup_alter_eq, H0, lookup_alter_ne, H1 by done. done.
      * injection Hl as <-. exists c0, value.
        rewrite lookup_alter_ne, H0, lookup_alter_eq, H1 by done. done.
    + rewrite sectionOnChange_invalid by done. unfold state_of; simpl. eauto.
  - rewrite handleSubmit_run. simpl.
    destruct (fetch_result w) as [e|r]; [eauto|].
    destruct (ok r); [|eauto]. destruct (blob_result r); simpl; eauto.
  - rewrite downloadPdf_state. eauto.
Qed.

Lemma with_authors_twice {A B S} (d : FormData nat S) (a : list A) (b : list B) :
  with_authors (with_authors d a) b = with_authors d b.
Proof. by destruct d. Qed.

Lemma state_of_triple {A} (r : outcome A) (st : AppState) (tr : list effect) :
  state_of (r, st, tr) = st.
Proof. reflexivity. Qed.

Lemma delete_last {A} (l : list A) x : delete (length l) (l ++ [x]) = l.
Proof. induction l as [|y l IH]; simpl; [done | by rewrite IH]. Qed.

End SessionFacts.

Import SessionFacts.

(** X9.  In every session the form has exactly the two sections it starts
    with: no handler adds, removes or renames a section, only the contents
    change.  Their labels are therefore always Introduction and Section II,
    the second being the title stored for it. *)
Theorem sections_fixed (calls : list call) :
  exists content0 content1,
    sections (document (run calls initialState))
    = [ mkSection "Introduction" content0 None;
        mkSection "Section II" content1 (Some []) ]
    /\ sectionLabels (sections (document (run calls initialState)))
       = [ "Introduction"; "Section II" ].
Proof.
  assert (Hinv :
    sections (formData (run calls initialState)) = [0%nat; 1%nat]
    /\ exists c0 c1,
         sectionObjs (run calls initialState) !! 0%nat
         = Some (mkSection "Introduction" c0 None)
         /\ sectionObjs (run calls initialState) !! 1%nat
            = Some (mkSection "Section II" c1 (Some []))).
  { induction calls as [|c calls IH] using rev_ind.
    - split; [done|]. by exists "", "".
    - rewrite run_snoc. by apply handler_sections_fixed. }
  destruct Hinv as (Hsecs & c0 & c1 & H0 & H1). exists c0, c1.
  assert (Hdoc : sections (document (run calls initialState))
                 = [ mkSection "Introduction" c0 None;
                     mkSection "Section II" c1 (Some []) ]).
  { unfold document, with_sections; simpl. rewrite Hsecs. simpl.
    by rewrite H0, H1. }
  by rewrite Hdoc.
Qed.

(** X10.  Adding an author and removing the one just added gives the
    document back: with between 1 and 5 authors, [addAuthor] followed by
    [removeAuthor] of the new last position leaves [formData] and the
    document exactly as they were. *)
Theorem addAuthor_removeAuthor_round_trip (st : AppState)
    (Hclosed : closed st) (Hcount : (1 <= authorCount st < 6)%nat) :
  formData (run [AddAuthor; RemoveAuthor (Z.of_nat (authorCount st))] st)
  = formData st
  /\ document (run [AddAuthor; RemoveAuthor (Z.of_nat (authorCount st))] st)
     = document st.
Proof.
  destruct Hclosed as [Hca Hcs].
  assert (Hrun :
    run [AddAuthor; RemoveAuthor (Z.of_nat (authorCount st))] st
    = mkAppState (formData st) (pdfUrl st)
        (<[fresh (dom (authorObjs st)) := emptyAuthor]> (authorObjs st))
        (sectionObjs st)).
  { unfold run. cbn [fold_left handler].
    rewrite addAuthor_room by lia. rewrite state_of_triple.
    rewrite removeAuthor_several
      by (unfold authorCount in *; simpl; rewrite length_app; simpl; lia).
    rewrite state_of_triple. simpl.
    rewrite array_filter_ne_valid
      by (unfold authorCount in *; rewrite length_app; simpl; lia).
    unfold authorCount. rewrite Nat2Z.id, delete_last, with_authors_twice.
    by rewrite with_authors_same. }
  rewrite Hrun. split; [done|].
  unfold document, with_authors, with_sections; simpl. f_equal.
  apply omap_ext_Forall. rewrite Forall_forall in Hca |- *.
  intros x Hx. apply lookup_insert_ne. intros Heq.
  apply (is_fresh (dom (authorObjs st))). rewrite Heq.
  by apply elem_of_dom, Hca.
Qed.

Lemma addAuthor_removeAuthor_round_trip_witness :
  closed initialState
  /\ (1 <= authorCount initialState < 6)%nat
  /\ document (run [AddAuthor; RemoveAuthor 1] initialState)
     = document initialState.
Proof.
  assert (Hclosed : closed initialState) by apply initialState_well_formed.
  assert (Hcount : (1 <= authorCount initialState < 6)%nat)
    by (vm_compute; lia).
  split; [exact Hclosed|]. split; [exact Hcount|].
  exact (proj2 (addAuthor_removeAuthor_round_trip initialState Hclosed Hcount)).
Defined.

(** X11.  In every session each position of the two arrays is backed by an
    object of its own: no reference dangles and no object sits at two
    positions, so the document read through the store has one author per
    entry of [authors] and one section per entry of [sections]. *)
Theorem session_store_shape (calls : list call) :
  closed (run calls initialState)
  /\ unshared (run calls initialState)
  /\ length (authors (document (run calls initialState)))
     = authorCount (run calls initialState)
  /\ length (sections (document (run calls initialState)))
     = length (sections (formData (run calls initialState))).
Proof.
  pose proof (run_well_formed calls _ initialState_well_formed)
    as ([Hca Hcs] & Hunshared & _).
  split_and!; [done | done | |].
  - unfold document, with_authors, with_sections, authorCount; simpl.
    by apply omap_length_closed.
  - unfold document, with_authors, with_sections; simpl.
    by apply omap_length_closed.
Qed.

(** ** The rendered form *)

Module ViewFacts.
Import App View AppFacts SessionFacts.

Lemma in_range_spec {A} (array : list A) index :
  in_range array index = true <-> 0 <= index < Z.of_nat (length array).
Proof.
  unfold in_range. rewrite andb_true_iff, Z.leb_le, Z.ltb_lt. tauto.
Qed.

(** A call that the rendered form offers returns. *)
Lemma offered_returns st c :
  offered st c = true -> result_of (handler c st) = Returned tt.
Proof.
  destruct c as [change|index field value| |index|index value|w|];
    unfold offered, handler; intros Hoffered.
  - done.
  - apply in_range_spec in Hoffered.
    destruct (array_get_valid (authors (formData st)) index Hoffered)
      as (l & _ & Hl).
    by rewrite (handleAuthorChange_valid st index field value l) by (done || lia).
  - rewrite addAuthor_room; [done|]. apply Z.ltb_lt in Hoffered.
    unfold authorCount. lia.
  - apply andb_true_iff in Hoffered as [Hmore _].
    rewrite removeAuthor_several; [done|].
    apply Z.gtb_lt in Hmore. unfold authorCount. lia.
  - apply in_range_spec in Hoffered.
    destruct (array_get_valid (sections (formData st)) index Hoffered)
      as (l & _ & Hl).
    by rewrite (sectionOnChange_valid st index value l) by (done || lia).
  - rewrite handleSubmit_run. simpl.
    destruct (fetch_result w) as [e|r]; [done|].
    destruct (ok r); [|done]. by destruct (blob_result r).
  - run_handler. by rewrite Hoffered.
Qed.

(** Two property assignments on author objects, at different positions or
    to different properties, give the same store in either order. *)
Lemma alter_author_commute (m : gmap nat Author) l1 l2 f g v w :
  l1 <> l2 \/ f <> g ->
  alter (setAuthorProp g w) l2 (alter (setAuthorProp f v) l1 m)
  = alter (setAuthorProp f v) l1 (alter (setAuthorProp g w) l2 m).
Proof.
  intros Hne. apply map_eq. intros k.
  destruct (decide (l2 = k)) as [->|Hk2], (decide (l1 = k)) as [->|Hk1];
    repeat (rewrite lookup_alter_eq || rewrite lookup_alter_ne by done);
    try done.
  destruct Hne as [|Hfg]; [done|].
  destruct (m !! k) as [a|]; simpl; [|done]. f_equal. by destruct f, g.
Qed.

Lemma alter_author_overwrite (m : gmap nat Author) l f v w :
  alter (setAuthorProp f w) l (alter (setAuthorProp f v) l m)
  = alter (setAuthorProp f w) l m.
Proof.
  apply map_eq. intros k.
  destruct (decide (l = k)) as [->|Hk];
    repeat (rewrite lookup_alter_eq || rewrite lookup_alter_ne by done);
    try done.
  destruct (m !! k) as [a|]; simpl; [|done]. f_equal. by destruct f.
Qed.

Lemma handleAuthorChange_twice st i j f g v w li lj :
  authors (formData st) !! Z.to_nat i = Some li -> 0 <= i ->
  authors (formData st) !! Z.to_nat j = Some lj -> 0 <= j ->
  run [HandleAuthorChange i f v; HandleAuthorChange j g w] st
  = mkAppState (formData st) (pdfUrl st)
      (alter (setAuthorProp g w) lj (alter (setAuthorProp f v) li (authorObjs st)))
      (sectionObjs st).
Proof.
  intros Hli Hi Hlj Hj. unfold run. cbn [fold_left handler].
  rewrite (handleAuthorChange_valid st i f v li) by done.
  rewrite state_of_triple, with_authors_same.
  rewrite (handleAuthorChange_valid _ j g w lj) by done.
  rewrite state_of_triple. simpl. by rewrite with_authors_same.
Qed.

#[export] Instance author_json_inj : Inj (=) (=) author_json.
Proof. intros [] [] [=]. congruence. Qed.

#[export] Instance section_json_inj : Inj (=) (=) section_json.
Proof.
  intros [t c [s|]] [t' c' [s'|]]; unfold section_json; simpl; intros [=];
    congruence.
Qed.

End ViewFacts.

Import ViewFacts.

(** X12.  In a session in which every call is one the rendered form offers
    at the time (inputs and buttons of rows that exist, the add button below
    6 authors, the remove buttons above 1, the submit event with the
    required inputs filled, the download button with a stored URL), no
    handler ever throws: the [TypeError] of an index outside the array
    cannot be reached from the form. *)
Theorem ui_session_never_throws (calls : list call) (st : AppState)
    (Hui : ui_driven calls st = true) :
  Forall (fun r => r = Returned tt) (run_results calls st).
Proof.
  revert st Hui. induction calls as [|c calls IH]; intros st Hui; simpl.
  - constructor.
  - simpl in Hui. apply andb_true_iff in Hui as [Hoffered Hrest].
    constructor; [by apply offered_returns | by apply IH].
Qed.

Lemma ui_session_never_throws_witness :
  ui_driven
    [ AddAuthor; HandleAuthorChange 1 Email "a@b.org"; RemoveAuthor 0;
      SectionOnChange 1 "Text"; HandleInputChange (ChangeDropCap false) ]
    initialState = true
  /\ Forall (fun r => r = Returned tt)
       (run_results
          [ AddAuthor; HandleAuthorChange 1 Email "a@b.org"; RemoveAuthor 0;
            SectionOnChange 1 "Text"; HandleInputChange (ChangeDropCap false) ]
          initialState).
Proof.
  assert (Hui : ui_driven
    [ AddAuthor; HandleAuthorChange 1 Email "a@b.org"; RemoveAuthor 0;
      SectionOnChange 1 "Text"; HandleInputChange (ChangeDropCap false) ]
    initialState = true) by (vm_compute; reflexivity).
  split; [exact Hui|].
  exact (ui_session_never_throws _ _ Hui).
Defined.

(** X13.  A button that is rendered always acts.  When the add button is
    shown, [addAuthor] adds one author; when a remove button is shown,
    [removeAuthor] takes out the author of its row and no other; when the
    download button is shown, [downloadPdf] delivers the stored URL under
    the name ieee_conference_paper.pdf.  When the add or the download
    button is not shown, its handler would change and deliver nothing. *)
Theorem rendered_buttons_act (st : AppState) :
  (offered st AddAuthor = true ->
   authorCount (state_of (addAuthor st)) = S (authorCount st))
  /\ (offered st AddAuthor = false -> addAuthor st = (Returned tt, st, []))
  /\ (forall index,
        offered st (RemoveAuthor index) = true ->
        authors (formData (state_of (removeAuthor index st)))
        = delete (Z.to_nat index) (authors (formData st))
        /\ authorCount (state_of (removeAuthor index st))
           = (authorCount st - 1)%nat)
  /\ (offered st DownloadPdf = true ->
      exists url,
        pdfUrl st = Some url
        /\ downloadPdf st
           = (Returned tt, st, [LinkClick url "ieee_conference_paper.pdf"]))
  /\ (offered st DownloadPdf = false -> downloadPdf st = (Returned tt, st, [])).
Proof.
  unfold offered. split_and!.
  - intros Hshown%Z.ltb_lt. rewrite addAuthor_room by (unfold authorCount; lia).
    unfold state_of, authorCount; simpl. rewrite length_app. simpl. lia.
  - intros Hhidden%Z.ltb_ge. apply addAuthor_full. unfold authorCount. lia.
  - intros index [Hmore%Z.gtb_lt Hrange%in_range_spec]%andb_true_iff.
    rewrite removeAuthor_several by (unfold authorCount; lia).
    unfold state_of, authorCount; simpl.
    rewrite array_filter_ne_valid by done. split; [done|].
    rewrite length_delete; [done|]. apply lookup_lt_is_Some_2. lia.
  - intros Hshown. destruct (pdfUrl st) as [url|] eqn:Hurl; [|done].
    exists url. split; [done|].
    assert (Hrun : downloadPdf st
      = if truthy (pdfUrl st)
        then (Returned tt, st,
              [LinkClick (default "" (pdfUrl st)) "ieee_conference_paper.pdf"])
        else (Returned tt, st, [])).
    { unfold downloadPdf, get_pdfUrl, emit, mbind, M_bind, mret, M_ret.
      by destruct (truthy (pdfUrl st)). }
    by rewrite Hrun, Hurl, Hshown.
  - intros Hhidden. run_handler. by rewrite Hhidden.
Qed.

Lemma rendered_buttons_act_witness :
  offered initialState AddAuthor = true
  /\ authorCount (state_of (addAuthor initialState)) = 2%nat
  /\ offered initialState DownloadPdf = false
  /\ downloadPdf initialState = (Returned tt, initialState, []).
Proof.
  destruct (rendered_buttons_act initialState) as (Hadd & _ & _ & _ & Hdown).
  split_and!; [reflexivity | exact (Hadd eq_refl) | reflexivity
              | exact (Hdown eq_refl)].
Defined.

(** X14.  Edits of author fields compose as edits of separate cells: in a
    state where no author object is shared between two rows, two calls of
    [handleAuthorChange] on existing rows that differ in the row or in the
    field give the same state in either order, and two on the same row and
    field leave what the second alone leaves. *)
Theorem handleAuthorChange_compose (st : AppState) (i j : Z)
    (f g : authorField) (v w : string)
    (Hunshared : unshared st)
    (Hi : 0 <= i < Z.of_nat (length (authors (formData st))))
    (Hj : 0 <= j < Z.of_nat (length (authors (formData st)))) :
  (i <> j \/ f <> g ->
   run [HandleAuthorChange i f v; HandleAuthorChange j g w] st
   = run [HandleAuthorChange j g w; HandleAuthorChange i f v] st)
  /\ run [HandleAuthorChange i f v; HandleAuthorChange i f w] st
     = run [HandleAuthorChange i f w] st.
Proof.
  destruct Hunshared as [Hnd _].
  destruct (array_get_valid (authors (formData st)) i Hi) as (li & _ & Hli).
  destruct (array_get_valid (authors (formData st)) j Hj) as (lj & _ & Hlj).
  split.
  - intros Hne.
    rewrite (handleAuthorChange_twice st i j f g v w li lj) by (done || lia).
    rewrite (handleAuthorChange_twice st j i g f w v lj li) by (done || lia).
    f_equal. apply alter_author_commute.
    destruct Hne as [Hij|Hfg]; [left|by right].
    intros ->. apply Hij.
    pose proof (NoDup_lookup _ _ _ _ Hnd Hli Hlj). lia.
  - rewrite (handleAuthorChange_twice st i i f f v w li li) by (done || lia).
    unfold run. cbn [fold_left handler].
    rewrite (handleAuthorChange_valid st i f w li) by (done || lia).
    rewrite state_of_triple, with_authors_same.
    f_equal. apply alter_author_overwrite.
Qed.

Lemma handleAuthorChange_compose_witness :
  unshared initialState
  /\ 0 <= 0 < Z.of_nat (length (authors (formData initialState)))
  /\ run [ HandleAuthorChange 0 FirstName "Ada";
           HandleAuthorChange 0 LastName "Lovelace" ] initialState
     = run [ HandleAuthorChange 0 LastName "Lovelace";
             HandleAuthorChange 0 FirstName "Ada" ] initialState.
Proof.
  assert (Hunshared : unshared initialState) by apply initialState_well_formed.
  assert (Hi : 0 <= 0 < Z.of_nat (length (authors (formData initialState))))
    by (simpl; lia).
  split; [exact Hunshared|]. split; [exact Hi|].
  apply (handleAuthorChange_compose initialState 0 0 FirstName LastName
           "Ada" "Lovelace" Hunshared Hi Hi).
  right. discriminate.
Defined.

(** X15.  The body of the generation request determines the document: two
    documents with the same JSON tree are equal, field by field, author by
    author and section by section (a section without [subsections] and one
    with an empty [subsections] array are told apart). *)
Theorem formData_json_injective (d1 d2 : FormData Author SectionObj)
    (Hjson : formData_json d1 = formData_json d2) :
  d1 = d2.
Proof.
  destruct d1 as [t1 p1 f1 c1 a1 b1 k1 s1 r1], d2 as [t2 p2 f2 c2 a2 b2 k2 s2 r2].
  unfold formData_json in Hjson. simpl in Hjson.
  injection Hjson as -> -> -> -> Ha -> -> Hs ->.
  apply (inj (fmap author_json)) in Ha as ->.
  apply (inj (fmap section_json)) in Hs as ->.
  done.
Qed.

Lemma formData_json_injective_witness :
  formData_json (document initialState) = formData_json (document initialState)
  /\ section_json (mkSection "A" "" None) <> section_json (mkSection "A" "" (Some [])).
Proof.
  split; [reflexivity|].
  intros Heq.
  pose proof (formData_json_injective
    (mkFormData "" "" "" true [] "" "" [mkSection "A" "" None] "")
    (mkFormData "" "" "" true [] "" "" [mkSection "A" "" (Some [])] "")
    ltac:(unfold formData_json; simpl; by rewrite Heq)) as Hd.
  discriminate Hd.
Defined.

(** X16.  Whatever the service answers, [handleSubmit] leaves the form as
    it is: [formData], the author and section objects and hence the
    document are unchanged, and [pdfUrl] either keeps its value or becomes
    the new object URL.  Submitting again at once sends the same body. *)
Theorem handleSubmit_keeps_form (st : AppState) (w w' : world) :
  formData (state_of (handleSubmit w st)) = formData st
  /\ authorObjs (state_of (handleSubmit w st)) = authorObjs st
  /\ sectionObjs (state_of (handleSubmit w st)) = sectionObjs st
  /\ document (state_of (handleSubmit w st)) = document st
  /\ (pdfUrl (state_of (handleSubmit w st)) = pdfUrl st
      \/ pdfUrl (state_of (handleSubmit w st)) = Some ("blob:" +:+ next_uuid w))
  /\ sent_requests (trace_of (handleSubmit w' (state_of (handleSubmit w st))))
     = sent_requests (trace_of (handleSubmit w st)).
Proof.
  assert (Hframe :
    formData (state_of (handleSubmit w st)) = formData st
    /\ authorObjs (state_of (handleSubmit w st)) = authorObjs st
    /\ sectionObjs (state_of (handleSubmit w st)) = sectionObjs st).
  { rewrite handleSubmit_run. simpl.
    destruct (fetch_result w) as [e|r]; [done|].
    destruct (ok r); [|done]. by destruct (blob_result r). }
  destruct Hframe as (Hfd & Ha & Hs).
  assert (Hdoc : document (state_of (handleSubmit w st)) = document st).
  { unfold document. by rewrite Hfd, Ha, Hs. }
  split_and!; try done.
  - rewrite handleSubmit_run. simpl.
    destruct (fetch_result w) as [e|r]; [by left|].
    destruct (ok r); [|by left]. destruct (blob_result r); [by left | by right].
  - rewrite (handleSubmit_run w' (state_of (handleSubmit w st))), Hdoc.
    rewrite (handleSubmit_run w st). unfold trace_of. simpl.
    destruct (fetch_result w') as [e'|r'], (fetch_result w) as [e|r]; simpl;
      repeat match goal with
             | |- context [ok ?x] => destruct (ok x); simpl
             | |- context [blob_result ?x] => destruct (blob_result x); simpl
             end; done.
Qed.


